(** * letterboxd-proxy: the diary scraping pipeline

    A shallow embedding of [netlify/functions/letterboxd-proxy.js]:
    the slug normaliser, the three page parsers and the request handler,
    together with the part of the JavaScript runtime they call
    (strings as sequences of UTF-16 code units, [isNaN], [parseInt],
    [Promise.all], [JSON.stringify] on the values that occur). *)

From Stdlib Require Import ZArith NArith Ascii String DecimalString DecimalNat.
From stdpp Require Import gmap strings list fin_maps.

Local Open Scope Z_scope.
Set Warnings "-register-all".

(** ** JavaScript strings *)

Module JS.

(** A string value is a finite sequence of UTF-16 code units. *)
Definition codeunit := N.
Definition jsstring := list codeunit.

(** Literals of the source are written [js "..."] (ASCII only; other
    code units are given by number). *)
Definition js (s : string) : jsstring :=
  map N_of_ascii (list_ascii_of_string s).

Definition cu_hyphen : codeunit := 45%N.
Definition cu_plus : codeunit := 43%N.
Definition cu_dot : codeunit := 46%N.
Definition cu_slash : codeunit := 47%N.
(** U+2019 RIGHT SINGLE QUOTATION MARK, the apostrophe of the page title. *)
Definition cu_rsquo : codeunit := 8217%N.

(** [s.length] *)
Definition len (s : jsstring) : Z := Z.of_nat (length s).

(** WhiteSpace and LineTerminator code points (ECMA-262 12.2, 12.3):
    TAB, LF, VT, FF, CR, SP, NBSP, the Zs category, LS, PS, ZWNBSP. *)
Definition isWhiteSpace (c : codeunit) : bool :=
  ((9 <=? c) && (c <=? 13) || (c =? 32) || (c =? 160) || (c =? 5760)
   || (8192 <=? c) && (c <=? 8202) || (c =? 8232) || (c =? 8233)
   || (c =? 8239) || (c =? 8287) || (c =? 12288) || (c =? 65279))%N.

Fixpoint trimStart (s : jsstring) : jsstring :=
  match s with
  | c :: r => if isWhiteSpace c then trimStart r else s
  | [] => []
  end.

Definition trimEnd (s : jsstring) : jsstring :=
  reverse (trimStart (reverse s)).

(** [s.trim()] *)
Definition trim (s : jsstring) : jsstring := trimEnd (trimStart s).

(** [s.slice(start, end)], negative indices counting from the end. *)
Definition slice (s : jsstring) (start stop : Z) : jsstring :=
  let n := len s in
  let from := if start <? 0 then Z.max (n + start) 0 else Z.min start n in
  let to := if stop <? 0 then Z.max (n + stop) 0 else Z.min stop n in
  take (Z.to_nat (to - from)) (drop (Z.to_nat from) s).

(** [s.slice(start)] *)
Definition slice_from (s : jsstring) (start : Z) : jsstring :=
  slice s start (len s).

(** [s.substring(start)] *)
Definition substring_from (s : jsstring) (start : Z) : jsstring :=
  drop (Z.to_nat (Z.min (Z.max start 0) (len s))) s.

(** [s.lastIndexOf(c)] for a search string of one code unit: the
    greatest index holding [c], or -1. *)
Fixpoint lastIndexOf (s : jsstring) (c : codeunit) : Z :=
  match s with
  | [] => -1
  | x :: r =>
      let k := lastIndexOf r c in
      if 0 <=? k then k + 1 else if (x =? c)%N then 0 else -1
  end.

(** [s.startsWith(p)] *)
Fixpoint startsWith (s p : jsstring) : bool :=
  match p, s with
  | [], _ => true
  | _ :: _, [] => false
  | a :: p', b :: s' => (a =? b)%N && startsWith s' p'
  end.

(** [s.indexOf(p)]: the least index at which [p] occurs, or -1. *)
Fixpoint indexOf (s p : jsstring) : Z :=
  if startsWith s p then 0
  else match s with
       | [] => -1
       | _ :: r => let k := indexOf r p in if 0 <=? k then k + 1 else -1
       end.

(** [s.includes(p)] *)
Definition includes (s p : jsstring) : bool := 0 <=? indexOf s p.

(** [s.replace(p, r)] for a string pattern [p] and a replacement [r]
    without [$]: the first occurrence only. *)
Definition replace (s p r : jsstring) : jsstring :=
  let k := indexOf s p in
  if 0 <=? k
  then take (Z.to_nat k) s ++ r ++ drop (Z.to_nat k + length p) s
  else s.

(** [s.split(c)] for a separator of one code unit. *)
Fixpoint split (s : jsstring) (c : codeunit) : list jsstring :=
  match s with
  | [] => [[]]
  | x :: r =>
      if (x =? c)%N then [] :: split r c
      else match split r c with
           | w :: ws => (x :: w) :: ws
           | [] => [[x]]
           end
  end.

(** [s.split('')]: one string per code unit. *)
Definition split_units (s : jsstring) : list jsstring :=
  map (fun c => [c]) s.

(** [parts.join(sep)] *)
Fixpoint join (parts : list jsstring) (sep : jsstring) : jsstring :=
  match parts with
  | [] => []
  | [p] => p
  | p :: ps => p ++ sep ++ join ps sep
  end.

(** [parts.indexOf(x)] on an array of strings. *)
Fixpoint array_indexOf (parts : list jsstring) (x : jsstring) : Z :=
  match parts with
  | [] => -1
  | p :: ps =>
      if bool_decide (p = x) then 0
      else let k := array_indexOf ps x in if 0 <=? k then k + 1 else -1
  end.

(** ** Numeric strings: [Number(s)] is NaN or not *)

Definition isDigit (c : codeunit) : bool := ((48 <=? c) && (c <=? 57))%N.
Definition isBinDigit (c : codeunit) : bool := ((c =? 48) || (c =? 49))%N.
Definition isOctDigit (c : codeunit) : bool := ((48 <=? c) && (c <=? 55))%N.
Definition isHexDigit (c : codeunit) : bool :=
  (isDigit c || (65 <=? c) && (c <=? 70) || (97 <=? c) && (c <=? 102))%N.

(** A non-empty run of characters of one class. *)
Definition digits_of (p : codeunit -> bool) (s : jsstring) : bool :=
  negb (bool_decide (s = [])) && forallb p s.

(** The longest prefix of [s] in the class [p], and the rest. *)
Fixpoint span (p : codeunit -> bool) (s : jsstring) : jsstring * jsstring :=
  match s with
  | c :: r => if p c then let '(a, b) := span p r in (c :: a, b) else ([], s)
  | [] => ([], [])
  end.

(** SignedInteger *)
Definition isSignedInteger (s : jsstring) : bool :=
  match s with
  | c :: r => if ((c =? cu_plus) || (c =? cu_hyphen))%N
              then digits_of isDigit r else digits_of isDigit s
  | [] => false
  end.

(** ExponentPart, optional *)
Definition isExponentOpt (s : jsstring) : bool :=
  match s with
  | [] => true
  | c :: r => ((c =? 101) || (c =? 69))%N && isSignedInteger r
  end.

(** StrUnsignedDecimalLiteral *)
Definition isStrUnsignedDecimalLiteral (s : jsstring) : bool :=
  bool_decide (s = js "Infinity")
  || let '(int, r) := span isDigit s in
     match r with
     | [] => negb (bool_decide (int = []))
     | c :: r' =>
         if (c =? cu_dot)%N
         then let '(frac, r'') := span isDigit r' in
              negb (bool_decide (int = []) && bool_decide (frac = []))
              && isExponentOpt r''
         else negb (bool_decide (int = [])) && isExponentOpt r
     end.

(** StrDecimalLiteral *)
Definition isStrDecimalLiteral (s : jsstring) : bool :=
  match s with
  | c :: r => if ((c =? cu_plus) || (c =? cu_hyphen))%N
              then isStrUnsignedDecimalLiteral r
              else isStrUnsignedDecimalLiteral s
  | [] => false
  end.

(** NonDecimalIntegerLiteral: 0b, 0o, 0x in either case. *)
Definition isNonDecimalIntegerLiteral (s : jsstring) : bool :=
  match s with
  | 48%N :: m :: r =>
      if ((m =? 98) || (m =? 66))%N then digits_of isBinDigit r
      else if ((m =? 111) || (m =? 79))%N then digits_of isOctDigit r
      else if ((m =? 120) || (m =? 88))%N then digits_of isHexDigit r
      else false
  | _ => false
  end.

(** StringNumericLiteral (ECMA-262 7.1.4.1): optional white space around
    nothing or a StrNumericLiteral. *)
Definition isStringNumericLiteral (s : jsstring) : bool :=
  let t := trim s in
  bool_decide (t = []) || isStrDecimalLiteral t || isNonDecimalIntegerLiteral t.

(** The global [isNaN] applied to a string: [Number(s)] is NaN exactly
    when [s] is not a StringNumericLiteral. *)
Definition isNaN (s : jsstring) : bool := negb (isStringNumericLiteral s).

(** ** Numbers *)

(** The Number values that occur here are integral: NaN, the infinities,
    negative zero and the integers a binary64 holds ([Int 0] is +0). *)
Inductive number :=
  | NaN
  | PosInf
  | NegInf
  | NegZero
  | Int (z : Z).

(** The Number value for a natural number: round to nearest binary64,
    ties to even; [None] when the result overflows to Infinity. *)
Definition roundBinary64 (m : N) : option N :=
  (if m <? 2 ^ 53 then Some m
   else
     let e := N.log2 m - 52 in
     let q := m / 2 ^ e in
     let r := m mod 2 ^ e in
     let half := 2 ^ (e - 1) in
     let q' := if (half <? r) || ((r =? half) && N.odd q) then q + 1 else q in
     let v := q' * 2 ^ e in
     if 2 ^ 1024 <=? v then None else Some v)%N.

(** The mathematical value of a run of decimal digits. *)
Definition digits_value (ds : jsstring) : N :=
  fold_left (fun acc c => 10 * acc + (c - 48))%N ds 0%N.

(** [parseInt(s, 10)] (ECMA-262 19.2.5): skip leading white space, take
    an optional sign, read the longest run of decimal digits; no digit
    gives NaN. *)
Definition parseInt10 (input : jsstring) : number :=
  let s := trimStart input in
  let '(neg, s1) :=
    match s with
    | c :: r => if (c =? cu_hyphen)%N then (true, r)
                else if (c =? cu_plus)%N then (false, r) else (false, s)
    | [] => (false, [])
    end in
  let '(z, _) := span isDigit s1 in
  match z with
  | [] => NaN
  | _ :: _ =>
      let m := digits_value z in
      if (m =? 0)%N then (if neg then NegZero else Int 0)
      else match roundBinary64 m with
           | Some v => Int (if neg then - Z.of_N v else Z.of_N v)
           | None => if neg then NegInf else PosInf
           end
  end.

(** Decimal numeral of a loop counter, as a template literal prints it. *)
Definition decimal (n : nat) : jsstring :=
  js (NilEmpty.string_of_uint (Nat.to_uint n)).

(** ** Completions: a value, or a thrown error *)

(** [Throw e] carries the text that [`${e}`] prints for the thrown value. *)
Inductive completion (A : Type) :=
  | Normal (a : A)
  | Throw (e : jsstring).
Arguments Normal {A} a.
Arguments Throw {A} e.

#[global] Instance completion_ret : MRet completion := fun A a => Normal a.
#[global] Instance completion_bind : MBind completion := fun A B f m =>
  match m with
  | Normal a => f a
  | Throw e => Throw e
  end.

Fixpoint mapC {A B} (f : A -> completion B) (l : list A) : completion (list B) :=
  match l with
  | [] => Normal []
  | x :: r => y ← f x; ys ← mapC f r; Normal (y :: ys)
  end.

Definition TypeError_undefined : jsstring :=
  js "TypeError: Cannot read properties of undefined".

(** A value that is a string or [undefined] (or [null]): [None] is the
    missing one. Truthiness of such a value: a non-empty string. *)
Definition truthy (v : option jsstring) : bool :=
  match v with
  | Some (_ :: _) => true
  | _ => false
  end.

(** A method call [recv.m(...)]: a TypeError when the receiver is
    [undefined] or [null]. *)
Definition call {A} (recv : option jsstring) (m : jsstring -> A) : completion A :=
  match recv with
  | Some s => Normal (m s)
  | None => Throw TypeError_undefined
  end.

(** [`${v}`] for a value that is a string or [undefined]. *)
Definition tmpl (v : option jsstring) : jsstring :=
  match v with
  | Some s => s
  | None => js "undefined"
  end.

(** ** Dates *)

(** A Date object holds a time value: milliseconds since the epoch, or
    NaN ([None]) for an Invalid Date. *)
Record Date := { timeValue : option Z }.

(** ** JSON documents *)

(** What [JSON.stringify] prints, as a tree. [JDateString tv] is the
    string [toISOString] prints for the time value [tv]. *)
Inductive json :=
  | JNull
  | JBool (b : bool)
  | JNum (z : Z)
  | JStr (s : jsstring)
  | JDateString (tv : Z)
  | JArr (items : list json)
  | JObj (fields : list (string * json)).

(** A non-finite number is printed as [null], negative zero as [0]. *)
Definition json_of_number (n : number) : json :=
  match n with
  | Int z => JNum z
  | NegZero => JNum 0
  | NaN | PosInf | NegInf => JNull
  end.

(** [Date.prototype.toJSON]: [null] for an Invalid Date. *)
Definition json_of_date (d : Date) : json :=
  match timeValue d with
  | Some tv => JDateString tv
  | None => JNull
  end.

Definition json_of_nullable {A} (f : A -> json) (v : option A) : json :=
  match v with
  | Some a => f a
  | None => JNull
  end.

(** ** Promise.all *)

Module PromiseAll.
Section PromiseAll.
Context {A : Type}.

(** The state of the aggregate promise: the [values] array, with holes
    where no element has fulfilled yet, the count of elements still
    awaited, and the settlement once it has happened. *)
Record state := {
  values : list (option A);
  remaining : nat;
  settled : option (completion (list (option A)))
}.

Definition init (n : nat) : state :=
  {| values := replicate n None;
     remaining := n;
     settled := if bool_decide (n = 0%nat) then Some (Normal []) else None |}.

Definition first_settlement (old new : option (completion (list (option A))))
  : option (completion (list (option A))) :=
  match old with
  | Some _ => old
  | None => new
  end.

(** Element [i] settles with [outcomes !! i]. A rejection rejects the
    aggregate; a fulfilment stores its value at index [i] and, when it
    was the last one awaited, fulfils the aggregate with the array.
    Only the first settlement of the aggregate counts, and an element
    settles once. *)
Definition settle (outcomes : list (completion A)) (st : state) (i : nat) : state :=
  match outcomes !! i with
  | None => st
  | Some (Throw e) =>
      {| values := values st;
         remaining := remaining st;
         settled := first_settlement (settled st) (Some (Throw e)) |}
  | Some (Normal v) =>
      match values st !! i with
      | Some None =>
          let values' := <[i := Some v]> (values st) in
          let remaining' := (remaining st - 1)%nat in
          {| values := values';
             remaining := remaining';
             settled :=
               first_settlement (settled st)
                 (if bool_decide (remaining' = 0%nat)
                  then Some (Normal values') else None) |}
      | _ => st
      end
  end.

(** [await Promise.all(promises)] when the elements settle in the
    order [order]: [None] while the aggregate is still pending. *)
Definition all (outcomes : list (completion A)) (order : list nat)
  : option (completion (list (option A))) :=
  settled (fold_left (settle outcomes) order (init (length outcomes))).
End PromiseAll.
Arguments state A : clear implicits.
End PromiseAll.

End JS.

Import JS.

(** ** The slug normaliser *)

(** [stripYearFromSlug(slug)] *)
Definition stripYearFromSlug (slug : jsstring) : jsstring :=
  if negb (bool_decide (slug = [])) && (5 <=? len slug)
  then
    let lastHyphenIndex := lastIndexOf slug cu_hyphen in
    if negb (lastHyphenIndex =? -1)
    then
      let possibleYear := slice_from slug (lastHyphenIndex + 1) in
      if (len possibleYear =? 4) && negb (isNaN possibleYear)
      then slice slug 0 lastHyphenIndex
      else slug
    else slug
  else slug.


(** ** The parsed page, as cheerio presents it *)

(** An element as the code reads it: its attributes, its text content,
    and the descendants a selector matches, in document order. *)
Inductive Element := mkElement {
  el_attrs : gmap string jsstring;
  el_text : jsstring;
  el_find : string -> list Element
}.

(** The loaded document: [$(selector)]. *)
Record Document := { query : string -> list Element }.

(** [selection.attr(name)]: the attribute of the first element, or
    [undefined]. *)
Definition attr (selection : list Element) (name : string) : option jsstring :=
  match selection with
  | e :: _ => el_attrs e !! name
  | [] => None
  end.

(** [selection.text()]: the text of all the elements. *)
Definition text (selection : list Element) : jsstring :=
  concat (map el_text selection).

(** ** Parsed records *)

(** One diary entry, as [movies.push] builds it; [None] is [null]. *)
Record Movie := {
  filmId : option jsstring;
  title : jsstring;
  posterUrl : option jsstring;
  watchDate : option Date;
  rating : option number;
  isLiked : bool
}.

Record UserData := {
  name : jsstring;
  profilePicUrl : option jsstring
}.

Record MovieData := { movies : list Movie }.

(** [`${v}`] for a value that is a string or [null]. *)
Definition tmpl_null (v : option jsstring) : jsstring :=
  match v with
  | Some s => s
  | None => js "null"
  end.

Definition poster_prefix : jsstring :=
  js "https://a.ltrbxd.com/resized/film-poster/".
Definition poster_suffix : jsstring := js "-0-300-0-450-crop.jpg".
Definition avatar_small : jsstring := js "-0-48-0-48-crop".
Definition avatar_large : jsstring := js "-0-220-0-220-crop".

(** The selectors of a diary row. *)
Definition sel_film : string := "td.td-film-details div[data-film-id]".
Definition sel_title : string := "td.td-film-details h3.headline-3 a".
Definition sel_day : string := "td.td-day a".
Definition sel_rating : string := "td.td-rating input.rateit-field".
Definition sel_liked : string := "td.td-like .icon-liked".

Section Parsers.
(** [cheerio.load] and [Date.parse] belong to the environment. *)
Context (load : jsstring -> Document).
Context (Date_parse : jsstring -> option Z).

(** [new Date(s)] *)
Definition new_Date (s : jsstring) : Date := {| timeValue := Date_parse s |}.

(** [getPageCountFromHtml(html)] *)
Definition getPageCountFromHtml (html : jsstring) : completion nat :=
  let doc := load html in
  let pageCount := length (query doc ".paginate-pages li.paginate-page") in
  Normal pageCount.

(** [getUserDataFromHtml(html)] *)
Definition getUserDataFromHtml (html : jsstring) : completion UserData :=
  let doc := load html in
  let pageTitle := trim (text (query doc "title")) in
  name0 ← call (split pageTitle cu_rsquo !! 0%nat) trim;
  let name1 := substring_from name0 1 in
  let profilePicUrl := attr (query doc ".profile-mini-person .avatar img") "src" in
  small ← (if truthy profilePicUrl
           then call profilePicUrl (fun s => includes s avatar_small)
           else Normal false);
  profilePicUrl' ← (if (small : bool)
                    then r ← call profilePicUrl
                               (fun s => replace s avatar_small avatar_large);
                         Normal (Some r)
                    else Normal None);
  Normal {| name := name1; profilePicUrl := profilePicUrl' |}.

(** The film ID of a row. *)
Definition row_filmId (row : Element) : completion (option jsstring) :=
  let filmDiv := el_find row sel_film in
  if truthy (attr filmDiv "data-film-id")
  then s ← call (attr filmDiv "data-film-id") trim; Normal (Some s)
  else Normal None.

(** The film slug of a row, its year stripped. *)
Definition row_filmSlug (row : Element) : completion (option jsstring) :=
  let filmDiv := el_find row sel_film in
  if truthy (attr filmDiv "data-film-slug")
  then s ← call (attr filmDiv "data-film-slug") trim;
       Normal (Some (stripYearFromSlug s))
  else Normal None.

(** The poster URL built from the film ID and the slug. *)
Definition build_posterUrl (filmId filmSlug : option jsstring)
  : completion (option jsstring) :=
  if truthy filmId && truthy filmSlug
  then idDigits ← call filmId split_units;
       let path := join idDigits (js "/") in
       Normal (Some (poster_prefix ++ path ++ js "/" ++ tmpl_null filmId
                     ++ js "-" ++ tmpl_null filmSlug ++ poster_suffix))
  else Normal None.

(** The watch date rebuilt from the address of the day link. *)
Definition build_watchDate (dateUrl : option jsstring) : completion (option Date) :=
  if truthy dateUrl
  then dateParts ← call dateUrl
                     (fun s => List.filter (fun p => negb (bool_decide (p = [])))
                                           (split s cu_slash));
       let forIndex := array_indexOf dateParts (js "for") in
       if negb (forIndex =? -1) && (forIndex + 3 <? Z.of_nat (length dateParts))
       then
         let year := dateParts !! Z.to_nat (forIndex + 1) in
         let month := dateParts !! Z.to_nat (forIndex + 2) in
         let day := dateParts !! Z.to_nat (forIndex + 3) in
         Normal (Some (new_Date (tmpl year ++ js "-" ++ tmpl month
                                 ++ js "-" ++ tmpl day)))
       else Normal None
  else Normal None.

(** The star rating read from the rating input. *)
Definition build_rating (ratingValue : option jsstring) : option number :=
  match ratingValue with
  | Some s => Some (parseInt10 s)
  | None => None
  end.

(** The body of the [each] callback: one row, one movie. *)
Definition movieOfRow (row : Element) : completion Movie :=
  filmId ← row_filmId row;
  filmSlug ← row_filmSlug row;
  let title := trim (text (el_find row sel_title)) in
  posterUrl ← build_posterUrl filmId filmSlug;
  let dateUrl := attr (el_find row sel_day) "href" in
  watchDate ← build_watchDate dateUrl;
  let ratingValue := attr (el_find row sel_rating) "value" in
  let rating := build_rating ratingValue in
  let isLiked := (0 <? length (el_find row sel_liked))%nat in
  Normal {| filmId := filmId; title := title; posterUrl := posterUrl;
            watchDate := watchDate; rating := rating; isLiked := isLiked |}.

(** [getMovieDataFromHtml(html)] *)
Definition getMovieDataFromHtml (html : jsstring) : completion MovieData :=
  let doc := load html in
  ms ← mapC movieOfRow (query doc "tr.diary-entry-row");
  Normal {| movies := ms |}.
End Parsers.

(** ** The handler *)

(** The event of the function call; its query string parameters are an
    object of strings, or missing. *)
Record Event := { queryStringParameters : option (gmap string jsstring) }.

Record Response := {
  statusCode : Z;
  headers : list (string * string);
  body : json
}.

(** What [fetch] resolves to: the status, and what [text()] settles to. *)
Record HttpResponse := {
  status : Z;
  response_text : completion jsstring
}.

(** One run of the handler: the addresses fetched, in the order the
    requests were issued, and the response, if the handler returns. *)
Record Run := {
  fetched : list jsstring;
  returned : option Response
}.

Definition allowed_origin : jsstring := js "https://letterboxd.com/".

Definition json_of_movie (m : Movie) : json :=
  JObj [("filmId", json_of_nullable JStr (filmId m));
        ("title", JStr (title m));
        ("posterUrl", json_of_nullable JStr (posterUrl m));
        ("watchDate", json_of_nullable json_of_date (watchDate m));
        ("rating", json_of_nullable json_of_number (rating m));
        ("isLiked", JBool (isLiked m))].

Definition error_response (code : Z) (message : jsstring) : Response :=
  {| statusCode := code;
     headers := [];
     body := JObj [("error", JStr message)] |}.

Definition success_headers : list (string * string) :=
  [("Content-Type", "application/json");
   ("Access-Control-Allow-Origin", "*");
   ("Netlify-CDN-Cache-Control",
    "public, s-maxage=86400, stale-while-revalidate=172800, durable");
   ("Netlify-Cache-Tag", "letterboxd-diary")].

(** The response of a run without failure. *)
Definition success_response (firstStatus : Z) (user : UserData)
    (allMovies : list Movie) : Response :=
  {| statusCode := firstStatus;
     headers := success_headers;
     body := JObj [("movies", JArr (map json_of_movie allMovies));
                   ("name", JStr (name user));
                   ("profilePicUrl",
                    json_of_nullable JStr (profilePicUrl user))] |}.

Section Handler.
Context (load : jsstring -> Document).
Context (Date_parse : jsstring -> option Z).
(** The network: what [fetch(url, { headers })] settles to. *)
Context (fetch : jsstring -> completion HttpResponse).

(** The first page: fetched, read and parsed three times. *)
Definition first_page (url : jsstring)
  : completion (Z * nat * UserData * MovieData) :=
  firstPageResponse ← fetch url;
  firstPageHtml ← response_text firstPageResponse;
  pageCount ← getPageCountFromHtml load firstPageHtml;
  user ← getUserDataFromHtml load firstPageHtml;
  data ← getMovieDataFromHtml load Date_parse firstPageHtml;
  Normal (status firstPageResponse, pageCount, user, data).

(** The addresses of pages 2 to [pageCount]. *)
Definition pageUrls (url : jsstring) (pageCount : nat) : list jsstring :=
  map (fun i => url ++ js "page/" ++ decimal i ++ js "/")
      (seq 2 (pageCount - 1)).

(** [fetch(pageUrl).then(res => res.text()).then(getMovieDataFromHtml)] *)
Definition page_chain (pageUrl : jsstring) : completion MovieData :=
  res ← fetch pageUrl;
  html ← response_text res;
  getMovieDataFromHtml load Date_parse html.

(** [paginatedMovies.flatMap(pageData => pageData.movies)]; a hole in
    the array would be [undefined]. *)
Definition flatMap_movies (paginatedMovies : list (option MovieData))
  : completion (list Movie) :=
  pages ← mapC (fun pageData =>
                  match pageData with
                  | Some d => Normal (movies d)
                  | None => Throw TypeError_undefined
                  end) paginatedMovies;
  Normal (concat pages).

Definition failure (e : jsstring) : Response :=
  error_response 500 (js "Failed to fetch data: " ++ e).

(** The [try] block, for an accepted address; [order] is the order in
    which the requests for pages 2.. settle, by index into [pageUrls]. *)
Definition try_block (url : jsstring) (order : list nat) : Run :=
  match first_page url with
  | Throw e => {| fetched := [url]; returned := Some (failure e) |}
  | Normal (firstStatus, pageCount, user, data) =>
      let urls := pageUrls url pageCount in
      let log := url :: urls in
      match PromiseAll.all (map page_chain urls) order with
      | None => {| fetched := log; returned := None |}
      | Some (Throw e) => {| fetched := log; returned := Some (failure e) |}
      | Some (Normal paginatedMovies) =>
          match flatMap_movies paginatedMovies with
          | Throw e => {| fetched := log; returned := Some (failure e) |}
          | Normal rest =>
              let allMovies := movies data ++ rest in
              {| fetched := log;
                 returned := Some (success_response firstStatus user allMovies) |}
          end
      end
  end.

(** A request that fails in transport: the fetch rejects, or the
    reading of the body does. *)
Definition fetch_fails (address e : jsstring) : Prop :=
  fetch address = Throw e
  \/ exists res, fetch address = Normal res /\ response_text res = Throw e.

(** Some page of the run fails in transport: the first one, or one of
    the pages the first one announces. *)
Definition transport_failure (url : jsstring) : Prop :=
  (exists e, fetch_fails url e)
  \/ exists firstStatus pageCount user data j address e,
       first_page url = Normal (firstStatus, pageCount, user, data)
       /\ pageUrls url pageCount !! j = Some address
       /\ fetch_fails address e.

(** Every request for a later page settles at some point of [order]. *)
Definition all_settle (url : jsstring) (order : list nat) : Prop :=
  forall firstStatus pageCount user data,
    first_page url = Normal (firstStatus, pageCount, user, data) ->
    forall j, (j < length (pageUrls url pageCount))%nat -> j ∈ order.

(** [handler(event)] *)
Definition handler (event : Event) (order : list nat) : Run :=
  match queryStringParameters event with
  | None =>
      {| fetched := [];
         returned := Some (error_response 400 (js "No URL provided")) |}
  | Some params =>
      match params !! "url" with
      | Some (c :: r) =>
          let url := c :: r in
          if negb (truthy (Some url)) || negb (startsWith url allowed_origin)
          then {| fetched := [];
                  returned := Some (error_response 400 (js "Invalid URL")) |}
          else try_block url order
      | _ =>
          (* [!event.queryStringParameters.url]: missing, or empty *)
          {| fetched := [];
             returned := Some (error_response 400 (js "No URL provided")) |}
      end
  end.
End Handler.

(** ** Notions used by the statements *)

(** A year token as the code tests it: four code units after the last
    hyphen that [isNaN] does not reject. *)
Definition yearToken (y : jsstring) : Prop :=
  length y = 4%nat /\ (cu_hyphen ∉ y) /\ isNaN y = false.

(** The path of a poster as the spec words it: the code units of the
    film ID, one per path segment. *)
Definition id_segments (id : jsstring) : jsstring :=
  match id with
  | [] => []
  | c :: r => c :: flat_map (fun d => [cu_slash; d]) r
  end.

(** The non-empty segments of an address. *)
Definition segments (address : jsstring) : list jsstring :=
  List.filter (fun p => negb (bool_decide (p = []))) (split address cu_slash).

(** A rating text that starts, after white space and an optional sign,
    with a decimal digit. *)
Definition hasIntegerPrefix (s : jsstring) : bool :=
  match trimStart s with
  | c :: r =>
      if ((c =? cu_hyphen) || (c =? cu_plus))%N
      then match r with
           | d :: _ => isDigit d
           | [] => false
           end
      else isDigit c
  | [] => false
  end.

(** The movie a row gives, field by field. *)
Definition movie_of (Date_parse : jsstring -> option Z) (row : Element) : Movie :=
  let id := match attr (el_find row sel_film) "data-film-id" with
            | Some (c :: r) => Some (trim (c :: r))
            | _ => None
            end in
  let slug := match attr (el_find row sel_film) "data-film-slug" with
              | Some (c :: r) => Some (stripYearFromSlug (trim (c :: r)))
              | _ => None
              end in
  {| filmId := id;
     title := trim (text (el_find row sel_title));
     posterUrl :=
       match id, slug with
       | Some (c :: i), Some (d :: s) =>
           Some (poster_prefix ++ join (split_units (c :: i)) (js "/")
                 ++ js "/" ++ (c :: i) ++ js "-" ++ (d :: s) ++ poster_suffix)
       | _, _ => None
       end;
     watchDate :=
       match attr (el_find row sel_day) "href" with
       | Some (c :: r) =>
           let dateParts := segments (c :: r) in
           let forIndex := array_indexOf dateParts (js "for") in
           if negb (forIndex =? -1)
              && (forIndex + 3 <? Z.of_nat (length dateParts))
           then Some (new_Date Date_parse
                        (tmpl (dateParts !! Z.to_nat (forIndex + 1))
                         ++ js "-"
                         ++ tmpl (dateParts !! Z.to_nat (forIndex + 2))
                         ++ js "-"
                         ++ tmpl (dateParts !! Z.to_nat (forIndex + 3))))
           else None
       | _ => None
       end;
     rating := build_rating (attr (el_find row sel_rating) "value");
     isLiked := (0 <? length (el_find row sel_liked))%nat |}.

(** The user data a page gives. *)
Definition user_of (load : jsstring -> Document) (html : jsstring) : UserData :=
  {| name :=
       substring_from
         (trim (match split (trim (text (query (load html) "title"))) cu_rsquo with
                | w :: _ => w
                | [] => []
                end)) 1;
     profilePicUrl :=
       match attr (query (load html) ".profile-mini-person .avatar img") "src" with
       | Some (c :: r) =>
           if includes (c :: r) avatar_small
           then Some (replace (c :: r) avatar_small avatar_large)
           else None
       | _ => None
       end |}.

(** The movies a page gives. *)
Definition movies_of (load : jsstring -> Document)
    (Date_parse : jsstring -> option Z) (html : jsstring) : list Movie :=
  map (movie_of Date_parse) (query (load html) "tr.diary-entry-row").

(** The event of a request for [url]. *)
Definition event_for (url : jsstring) : Event :=
  {| queryStringParameters := Some {[ "url" := url ]} |}.

(** ** Fixtures *)

Module Fixture.

(** Days from 1970-01-01 to a date of the proleptic Gregorian calendar. *)
Definition days_from_civil (y m d : Z) : Z :=
  let y' := if m <=? 2 then y - 1 else y in
  let era := y' / 400 in
  let yoe := y' - era * 400 in
  let mp := (m + 9) mod 12 in
  let doy := (153 * mp + 2) / 5 + d - 1 in
  let doe := yoe * 365 + yoe / 4 - yoe / 100 + doy in
  era * 146097 + doe - 719468.

Definition days_in_month (y m : Z) : Z :=
  if m =? 2
  then if ((y mod 4 =? 0) && negb (y mod 100 =? 0)) || (y mod 400 =? 0)
       then 29 else 28
  else if (m =? 4) || (m =? 6) || (m =? 9) || (m =? 11) then 30 else 31.

(** An instance of [Date.parse] for the fixtures: the date-only form
    [YYYY-MM-DD] of the Date Time String Format, for a date that exists,
    is UTC midnight of that date; every other string gives NaN here. *)
Definition date_only_parse (s : jsstring) : option Z :=
  match s with
  | [y1; y2; y3; y4; h1; m1; m2; h2; d1; d2] =>
      if forallb isDigit [y1; y2; y3; y4; m1; m2; d1; d2]
         && (h1 =? cu_hyphen)%N && (h2 =? cu_hyphen)%N
      then
        let y := Z.of_N (digits_value [y1; y2; y3; y4]) in
        let m := Z.of_N (digits_value [m1; m2]) in
        let d := Z.of_N (digits_value [d1; d2]) in
        if (1 <=? m) && (m <=? 12) && (1 <=? d) && (d <=? days_in_month y m)
        then Some (days_from_civil y m d * 86400000)
        else None
      else None
  | _ => None
  end.

(** An element without descendants. *)
Definition leaf (attrs : gmap string jsstring) (content : jsstring) : Element :=
  mkElement attrs content (fun _ => []).

(** A diary row, given what each selector of the parser matches in it. *)
Definition diary_row (film titles days ratings likes : list Element) : Element :=
  mkElement ∅ []
    (fun selector =>
       if String.eqb selector sel_film then film
       else if String.eqb selector sel_title then titles
       else if String.eqb selector sel_day then days
       else if String.eqb selector sel_rating then ratings
       else if String.eqb selector sel_liked then likes
       else []).

(** A page, given its pagination items, title, avatar and rows. *)
Definition page (items titles avatars rows : list Element) : Document :=
  {| query := fun selector =>
       if String.eqb selector ".paginate-pages li.paginate-page" then items
       else if String.eqb selector "title" then titles
       else if String.eqb selector ".profile-mini-person .avatar img" then avatars
       else if String.eqb selector "tr.diary-entry-row" then rows
       else [] |}.

(** A row whose film element has a blank ID. *)
Definition row_blank_id : Element :=
  diary_row
    [leaf {[ "data-film-id" := js " "; "data-film-slug" := js "x" ]} []]
    [] [] [] [].

(** A complete row. *)
Definition row_oppenheimer : Element :=
  diary_row
    [leaf {[ "data-film-id" := js "784328";
             "data-film-slug" := js "oppenheimer-2023" ]} []]
    [leaf ∅ (js "Oppenheimer")]
    [leaf {[ "href" := js "/bob/films/diary/for/2023/07/15/" ]} []]
    [leaf {[ "value" := js "8" ]} []]
    [leaf ∅ []].

(** A row whose day link names month 13. *)
Definition row_month_13 : Element :=
  diary_row [] []
    [leaf {[ "href" := js "/bob/films/diary/for/2023/13/45/" ]} []]
    [] [].

(** A row whose rating input holds text. *)
Definition row_rating_text : Element :=
  diary_row [] [] [] [leaf {[ "value" := js "abc" ]} []] [].

(** A row that only has a title. *)
Definition titled (t : jsstring) : Element :=
  diary_row [] [leaf ∅ t] [] [] [].

Definition item : Element := leaf ∅ [].

(** The title of Bob's diary: a left-to-right mark, the name, the
    apostrophe U+2019, the rest. *)
Definition bob_title : Element :=
  leaf ∅ ([8206%N] ++ js "Bob" ++ [cu_rsquo] ++ js "s film diary "
          ++ [8226%N] ++ js " Letterboxd").

Definition bob_avatar : Element :=
  leaf {[ "src" := js "https://a.ltrbxd.com/resized/avatar/upload/1/2/3/avtr-0-48-0-48-crop.jpg" ]} [].

Definition base : jsstring := js "https://letterboxd.com/bob/films/diary/".

(** Three pages of two rows; the first announces three pages. *)
Definition load3 (html : jsstring) : Document :=
  if bool_decide (html = js "<page 1>")
  then page [item; item; item] [bob_title] [bob_avatar]
            [titled (js "A"); titled (js "B")]
  else if bool_decide (html = js "<page 2>")
  then page [item; item; item] [bob_title] [bob_avatar]
            [titled (js "C"); titled (js "D")]
  else if bool_decide (html = js "<page 3>")
  then page [item; item; item] [bob_title] [bob_avatar]
            [titled (js "E"); titled (js "F")]
  else if bool_decide (html = js "<one row>")
  then page [] [bob_title] [bob_avatar] [row_oppenheimer]
  else page [] [] [] [].

Definition ok (html : jsstring) : completion HttpResponse :=
  Normal {| status := 200; response_text := Normal html |}.

Definition down : completion HttpResponse :=
  Throw (js "TypeError: fetch failed").

(** A network on which the three pages are served. *)
Definition net3 (address : jsstring) : completion HttpResponse :=
  if bool_decide (address = base) then ok (js "<page 1>")
  else if bool_decide (address = base ++ js "page/2/") then ok (js "<page 2>")
  else if bool_decide (address = base ++ js "page/3/") then ok (js "<page 3>")
  else down.

(** The same network with page 2 unreachable. *)
Definition net3_page2_down (address : jsstring) : completion HttpResponse :=
  if bool_decide (address = base ++ js "page/2/") then down
  else net3 address.

(** A network that serves a profile of one page with one row. *)
Definition net1 (address : jsstring) : completion HttpResponse :=
  if bool_decide (address = base) then ok (js "<one row>") else down.

(** A network that answers 404 with a page without diary. *)
Definition net404 (address : jsstring) : completion HttpResponse :=
  if bool_decide (address = base)
  then Normal {| status := 404; response_text := Normal (js "<not found>") |}
  else down.

(** Bob, as the pages above present him. *)
Definition bob : UserData :=
  {| name := js "Bob";
     profilePicUrl :=
       Some (js "https://a.ltrbxd.com/resized/avatar/upload/1/2/3/avtr-0-220-0-220-crop.jpg") |}.

Definition movie_titled (t : jsstring) : Movie :=
  {| filmId := None; title := t; posterUrl := None; watchDate := None;
     rating := None; isLiked := false |}.

End Fixture.

(** The holes left in the [values] array of [Promise.all]. *)
Definition holes {A} (l : list (option A)) : nat :=
  length (List.filter (fun x => match x with None => true | Some _ => false end) l).

(** What holds of the state of [Promise.all] at every moment. *)
Definition all_invariant {A} (outcomes : list (completion A))
    (st : PromiseAll.state A) : Prop :=
  length (PromiseAll.values st) = length outcomes
  /\ (forall i v, PromiseAll.values st !! i = Some (Some v) ->
                  outcomes !! i = Some (Normal v))
  /\ PromiseAll.remaining st = holes (PromiseAll.values st)
  /\ match PromiseAll.settled st with
     | None => PromiseAll.remaining st <> 0%nat
     | Some (Normal l) =>
         l = PromiseAll.values st /\ PromiseAll.remaining st = 0%nat
     | Some (Throw e) => exists j, outcomes !! j = Some (Throw e)
     end.

(** What the elements settled so far have left in the state. *)
Definition all_seen {A} (outcomes : list (completion A))
    (st : PromiseAll.state A) (done : list nat) : Prop :=
  (forall i v, i ∈ done -> outcomes !! i = Some (Normal v) ->
               PromiseAll.values st !! i = Some (Some v))
  /\ (forall i e, i ∈ done -> outcomes !! i = Some (Throw e) ->
                  PromiseAll.settled st <> None).

(** A string without white space at either end. *)
Definition trimmed (s : jsstring) : Prop :=
  (forall c, head s = Some c -> isWhiteSpace c = false)
  /\ (forall c, last s = Some c -> isWhiteSpace c = false).

(** Whatever the state of [Promise.all] holds stems from an element that
    has settled. *)
Definition all_stems {A} (outcomes : list (completion A))
    (st : PromiseAll.state A) (done : list nat) : Prop :=
  (forall e, PromiseAll.settled st = Some (Throw e) ->
             exists i, i ∈ done /\ outcomes !! i = Some (Throw e))
  /\ (forall i v, PromiseAll.values st !! i = Some (Some v) -> i ∈ done).

(** ** Further fixtures *)

Module Outage.

(** The three-page network with pages 2 and 3 failing, each in its own way. *)
Definition net3_pages_down (address : jsstring) : completion HttpResponse :=
  if bool_decide (address = Fixture.base ++ js "page/2/")
  then Throw (js "TypeError: fetch failed")
  else if bool_decide (address = Fixture.base ++ js "page/3/")
  then Normal {| status := 200;
                 response_text := Throw (js "TypeError: terminated") |}
  else Fixture.net3 address.

End Outage.

(** ** The comparison page: [fetchData] of [App] *)

Module App.

Inductive AppStates :=
  | SELECT_USERS
  | LOADING
  | ERROR
  | COMPARE.

(** The data of one user as the proxy answers it: an object whose
    [profilePicUrl] is a string or [null]. *)
Record Profile := {
  movies : list json;
  name : jsstring;
  profilePicUrl : option jsstring
}.

(** What [fetch] resolves to in the page: [ok], [statusText], and what
    [json()] settles to. In this module [Throw e] carries [error.message]. *)
Record ProxyResponse := {
  ok : bool;
  statusText : jsstring;
  json : completion Profile
}.

(** The state of the component. *)
Record State := {
  appState : AppStates;
  user1Username : jsstring;
  user2Username : jsstring;
  error : option jsstring;
  userData : option Profile * option Profile
}.

(** The initial state: [useState] of each variable. *)
Definition initial : State :=
  {| appState := SELECT_USERS;
     user1Username := [];
     user2Username := [];
     error := None;
     userData := (None, None) |}.

(** The address requested for a user name. *)
Definition proxy_address (username : jsstring) : jsstring :=
  js "/.netlify/functions/netlify-proxy?url=https://letterboxd.com/"
  ++ username ++ js "/films/diary/".

Definition undefined_message : jsstring :=
  js "Cannot read properties of undefined".

(** An element of a destructured array; reading a property of a hole
    throws. *)
Definition item {A} (arr : list (option A)) (i : nat) : completion A :=
  match arr !! i with
  | Some (Some a) => Normal a
  | _ => Throw undefined_message
  end.

(** What one call of [fetchData] renders: the state after the two
    synchronous updates, and the state after the [try] statement, if it
    completes. *)
Record Trace := {
  loading : State;
  final : option State
}.

Section FetchData.
Context (fetch : jsstring -> completion ProxyResponse).
(** The imported placeholder image. *)
Context (avatarPlaceholder : jsstring).

(** [if (!data.profilePicUrl) data.profilePicUrl = avatarPlaceholder] *)
Definition with_default_picture (data : Profile) : Profile :=
  if negb (truthy (profilePicUrl data))
  then {| movies := movies data;
          name := name data;
          profilePicUrl := Some avatarPlaceholder |}
  else data.

(** The [try] block: the two responses, the check of [ok], the two
    bodies, the default pictures. [order1] and [order2] are the orders in
    which the elements of the two [Promise.all] settle. *)
Definition try_block (st : State) (order1 order2 : list nat)
  : option (completion (Profile * Profile)) :=
  match PromiseAll.all [fetch (proxy_address (user1Username st));
                        fetch (proxy_address (user2Username st))] order1 with
  | None => None
  | Some (Throw e) => Some (Throw e)
  | Some (Normal responses) =>
      match (r1 ← item responses 0; r2 ← item responses 1; Normal (r1, r2)) with
      | Throw e => Some (Throw e)
      | Normal (user1Response, user2Response) =>
          if negb (ok user1Response) || negb (ok user2Response)
          then Some (Throw
                 (if negb (ok user1Response)
                  then js "Error fetching " ++ user1Username st ++ js ": "
                       ++ statusText user1Response
                  else js "Error fetching " ++ user2Username st ++ js ": "
                       ++ statusText user2Response))
          else
            match PromiseAll.all [json user1Response; json user2Response]
                    order2 with
            | None => None
            | Some (Throw e) => Some (Throw e)
            | Some (Normal datas) =>
                Some (user1Data ← item datas 0;
                      user2Data ← item datas 1;
                      Normal (with_default_picture user1Data,
                              with_default_picture user2Data))
            end
      end
  end.

(** [fetchData()] *)
Definition fetchData (st : State) (order1 order2 : list nat) : Trace :=
  let st1 := {| appState := LOADING;
                user1Username := user1Username st;
                user2Username := user2Username st;
                error := None;
                userData := userData st |} in
  {| loading := st1;
     final :=
       match try_block st order1 order2 with
       | None => None
       | Some (Normal (user1Data, user2Data)) =>
           Some {| appState := COMPARE;
                   user1Username := user1Username st;
                   user2Username := user2Username st;
                   error := None;
                   userData := (Some user1Data, Some user2Data) |}
       | Some (Throw message) =>
           Some {| appState := ERROR;
                   user1Username := user1Username st;
                   user2Username := user2Username st;
                   error := Some message;
                   userData := userData st |}
       end |}.
End FetchData.

(** Both users are served: the two fetches fulfil with [ok] and both
    bodies are read. *)
Definition both_served (fetch : jsstring -> completion ProxyResponse)
    (st : State) : Prop :=
  exists r1 r2 d1 d2,
    fetch (proxy_address (user1Username st)) = Normal r1
    /\ fetch (proxy_address (user2Username st)) = Normal r2
    /\ ok r1 = true /\ ok r2 = true
    /\ json r1 = Normal d1 /\ json r2 = Normal d2.

(** A state with two user names, as the inputs leave it. *)
Definition typed (u1 u2 : jsstring) : State :=
  {| appState := SELECT_USERS;
     user1Username := u1;
     user2Username := u2;
     error := None;
     userData := (None, None) |}.

(** A proxy that serves alice without picture and bob with one, and
    answers 404 for anyone else. *)
Definition demo_fetch (address : jsstring) : completion ProxyResponse :=
  if bool_decide (address = proxy_address (js "alice"))
  then Normal {| ok := true; statusText := js "OK";
                 json := Normal {| movies := []; name := js "Alice";
                                   profilePicUrl := None |} |}
  else if bool_decide (address = proxy_address (js "bob"))
  then Normal {| ok := true; statusText := js "OK";
                 json := Normal {| movies := []; name := js "Bob";
                                   profilePicUrl := Some (js "bob.jpg") |} |}
  else Normal {| ok := false; statusText := js "Not Found";
                 json := Throw (js "Unexpected token") |}.

End App.

(** * Properties *)

(** ** Strings *)

Lemma len_nonneg (s : jsstring) : 0 <= len s.
Proof. unfold len. lia. Qed.

Lemma lastIndexOf_bounds (s : jsstring) (c : codeunit) :
  -1 <= lastIndexOf s c < len s.
Proof.
  unfold len. induction s as [|x r IH]; simpl; [lia|].
  destruct (0 <=? lastIndexOf r c) eqn:Hk; [apply Z.leb_le in Hk; lia|].
  destruct (x =? c)%N; lia.
Qed.

Lemma lastIndexOf_absent (s : jsstring) (c : codeunit) :
  lastIndexOf s c = -1 <-> c ∉ s.
Proof.
  induction s as [|x r IH]; simpl.
  - split; [intros _; apply not_elem_of_nil | done].
  - pose proof (lastIndexOf_bounds r c) as Hb.
    destruct (0 <=? lastIndexOf r c) eqn:Hk.
    + apply Z.leb_le in Hk. split; [lia|].
      intros Hn. exfalso. apply not_elem_of_cons in Hn as [_ Hn].
      apply IH in Hn. lia.
    + apply Z.leb_gt in Hk. assert (lastIndexOf r c = -1) as Hm by lia.
      apply IH in Hm. destruct (x =? c)%N eqn:Hx.
      * apply N.eqb_eq in Hx. subst x. split; [lia|].
        intros Hn. exfalso. apply Hn. left.
      * apply N.eqb_neq in Hx. split; [|done].
        intros _. apply not_elem_of_cons. split; [congruence | done].
Qed.

(** The index [lastIndexOf] returns cuts the string at its last [c]. *)
Lemma lastIndexOf_cut (s : jsstring) (c : codeunit) :
  0 <= lastIndexOf s c ->
  s = take (Z.to_nat (lastIndexOf s c)) s
        ++ c :: drop (Z.to_nat (lastIndexOf s c + 1)) s
  /\ c ∉ drop (Z.to_nat (lastIndexOf s c + 1)) s.
Proof.
  induction s as [|x r IH]; simpl; [lia|].
  pose proof (lastIndexOf_bounds r c) as Hb.
  destruct (0 <=? lastIndexOf r c) eqn:Hk.
  - apply Z.leb_le in Hk. intros _. destruct (IH Hk) as [Heq Hnot].
    replace (Z.to_nat (lastIndexOf r c + 1))
      with (S (Z.to_nat (lastIndexOf r c))) by lia.
    replace (Z.to_nat (lastIndexOf r c + 1 + 1))
      with (S (Z.to_nat (lastIndexOf r c + 1))) by lia.
    simpl. split; [f_equal; exact Heq | exact Hnot].
  - apply Z.leb_gt in Hk. assert (lastIndexOf r c = -1) as Hm by lia.
    apply lastIndexOf_absent in Hm.
    destruct (x =? c)%N eqn:Hx; [|lia].
    apply N.eqb_eq in Hx. subst x. intros _. simpl.
    rewrite drop_0. split; [reflexivity | exact Hm].
Qed.

Lemma lastIndexOf_app (t y : jsstring) (c : codeunit) :
  c ∉ y -> lastIndexOf (t ++ c :: y) c = len t.
Proof.
  intros Hy. unfold len. induction t as [|x t IH]; simpl.
  - apply lastIndexOf_absent in Hy. rewrite Hy. simpl.
    rewrite N.eqb_refl. reflexivity.
  - rewrite IH.
    destruct (0 <=? Z.of_nat (length t)) eqn:Hk; [lia|].
    apply Z.leb_gt in Hk. lia.
Qed.

Lemma slice_prefix (t u : jsstring) : slice (t ++ u) 0 (len t) = t.
Proof.
  unfold slice, len. rewrite length_app.
  replace (0 <? 0) with false by reflexivity.
  destruct (Z.of_nat (length t) <? 0) eqn:Hn; [apply Z.ltb_lt in Hn; lia|].
  rewrite Z.min_l by lia. rewrite Z.min_l by lia.
  simpl. rewrite drop_0.
  replace (Z.to_nat (Z.of_nat (length t) - 0)) with (length t) by lia.
  apply take_app_length.
Qed.

Lemma slice_from_suffix (t u : jsstring) : slice_from (t ++ u) (len t) = u.
Proof.
  unfold slice_from, slice, len. rewrite length_app.
  destruct (Z.of_nat (length t) <? 0) eqn:Hn; [apply Z.ltb_lt in Hn; lia|].
  destruct (Z.of_nat (length t + length u) <? 0) eqn:Hm;
    [apply Z.ltb_lt in Hm; lia|].
  rewrite Z.min_l by lia. rewrite Z.min_l by lia.
  rewrite Nat2Z.id. rewrite drop_app_length.
  apply take_ge. lia.
Qed.

Lemma slice_0_take (s : jsstring) (k : Z) :
  0 <= k <= len s -> slice s 0 k = take (Z.to_nat k) s.
Proof.
  intros Hk. unfold slice. fold (len s).
  replace (0 <? 0) with false by reflexivity.
  destruct (k <? 0) eqn:Hn; [apply Z.ltb_lt in Hn; lia|].
  rewrite Z.min_l by lia. rewrite Z.min_l by lia.
  simpl. rewrite drop_0. f_equal. lia.
Qed.

Lemma slice_from_drop (s : jsstring) (k : Z) :
  0 <= k <= len s -> slice_from s k = drop (Z.to_nat k) s.
Proof.
  intros Hk. unfold slice_from, slice.
  destruct (k <? 0) eqn:Hn; [apply Z.ltb_lt in Hn; lia|].
  destruct (len s <? 0) eqn:Hm; [apply Z.ltb_lt in Hm; lia|].
  rewrite Z.min_l by lia. rewrite Z.min_l by lia.
  apply take_ge. rewrite length_drop. unfold len in *. lia.
Qed.

(** ** The slug normaliser *)

(** Where the code strips: the token after the last hyphen is removed. *)
Lemma stripYearFromSlug_token (t y : jsstring) :
  yearToken y -> stripYearFromSlug (t ++ cu_hyphen :: y) = t.
Proof.
  intros (Hlen & Hhy & Hnum). unfold stripYearFromSlug.
  assert (len (t ++ cu_hyphen :: y) = len t + 5) as Hl.
  { unfold len. rewrite length_app. simpl. lia. }
  pose proof (len_nonneg t) as Ht.
  rewrite bool_decide_eq_false_2 by (by destruct t).
  replace (5 <=? len (t ++ cu_hyphen :: y)) with true
    by (symmetry; apply Z.leb_le; lia).
  simpl. rewrite lastIndexOf_app by exact Hhy.
  replace (len t =? -1) with false by (symmetry; apply Z.eqb_neq; lia).
  simpl.
  replace (t ++ cu_hyphen :: y) with ((t ++ [cu_hyphen]) ++ y)
    by (rewrite <- app_assoc; reflexivity).
  replace (len t + 1) with (len (t ++ [cu_hyphen]))
    by (unfold len; rewrite length_app; simpl; lia).
  rewrite slice_from_suffix.
  replace (len y =? 4) with true
    by (symmetry; apply Z.eqb_eq; unfold len; lia).
  rewrite Hnum. simpl.
  rewrite <- app_assoc. apply slice_prefix.
Qed.

(** Where the code changes its input, it has removed such a token. *)
Lemma stripYearFromSlug_changed (s : jsstring) :
  stripYearFromSlug s <> s ->
  exists y, yearToken y /\ s = stripYearFromSlug s ++ cu_hyphen :: y.
Proof.
  unfold stripYearFromSlug.
  destruct (negb (bool_decide (s = [])) && (5 <=? len s)); [|done].
  pose proof (lastIndexOf_bounds s cu_hyphen) as Hb.
  destruct (lastIndexOf s cu_hyphen =? -1) eqn:Hk; simpl; [done|].
  apply Z.eqb_neq in Hk.
  destruct (lastIndexOf_cut s cu_hyphen) as [Hcut Hnot]; [lia|].
  rewrite slice_from_drop by lia.
  destruct (len (drop (Z.to_nat (lastIndexOf s cu_hyphen + 1)) s) =? 4)
    eqn:Hl; simpl; [|done].
  destruct (isNaN (drop (Z.to_nat (lastIndexOf s cu_hyphen + 1)) s))
    eqn:Hn; simpl; [done|].
  intros _. exists (drop (Z.to_nat (lastIndexOf s cu_hyphen + 1)) s).
  rewrite slice_0_take by lia.
  split; [|exact Hcut].
  apply Z.eqb_eq in Hl. unfold len in Hl.
  repeat split; [lia | exact Hnot | exact Hn].
Qed.

Lemma stripYearFromSlug_shorter (t y : jsstring) :
  t ++ cu_hyphen :: y <> t.
Proof.
  intros H. apply (f_equal length) in H. rewrite length_app in H.
  simpl in H. lia.
Qed.

(** Four decimal digits are a year token. *)
Lemma span_all (p : codeunit -> bool) (s : jsstring) :
  forallb p s = true -> span p s = (s, []).
Proof.
  induction s as [|c r IH]; simpl; [done|].
  intros H. apply andb_prop in H as [Hc Hr]. rewrite Hc, (IH Hr). done.
Qed.

Lemma isWhiteSpace_digit (c : codeunit) :
  isDigit c = true -> isWhiteSpace c = false.
Proof.
  unfold isDigit, isWhiteSpace. intros H.
  apply andb_prop in H as [H1 H2].
  apply N.leb_le in H1. apply N.leb_le in H2.
  repeat match goal with
  | |- context [(?a <=? ?b)%N] => destruct (N.leb_spec a b); try lia
  | |- context [(?a =? ?b)%N] => destruct (N.eqb_spec a b); try lia
  end; reflexivity.
Qed.

Lemma trimStart_digit_head (c : codeunit) (r : jsstring) :
  isDigit c = true -> trimStart (c :: r) = c :: r.
Proof. intros H. simpl. by rewrite (isWhiteSpace_digit c H). Qed.

Lemma trim_digits (s : jsstring) :
  forallb isDigit s = true -> trim s = s.
Proof.
  intros H. unfold trim, trimEnd.
  assert (trimStart s = s) as ->.
  { destruct s as [|c r]; [done|]. apply trimStart_digit_head.
    simpl in H. by apply andb_prop in H as [H _]. }
  assert (forallb isDigit (reverse s) = true) as Hr.
  { apply forallb_forall. intros x Hx. rewrite forallb_forall in H.
    apply H. apply list_elem_of_In. apply list_elem_of_In in Hx.
    rewrite elem_of_reverse in Hx. exact Hx. }
  destruct (reverse s) as [|c r] eqn:Hs.
  - apply (f_equal reverse) in Hs. rewrite reverse_involutive in Hs.
    subst s. reflexivity.
  - rewrite trimStart_digit_head
      by (simpl in Hr; by apply andb_prop in Hr as [Hr _]).
    rewrite <- Hs. apply reverse_involutive.
Qed.

Lemma isNaN_digits (s : jsstring) :
  s <> [] -> forallb isDigit s = true -> isNaN s = false.
Proof.
  intros Hne Hd. unfold isNaN, isStringNumericLiteral.
  rewrite (trim_digits s Hd).
  assert (isStrDecimalLiteral s = true) as ->.
  { unfold isStrDecimalLiteral. destruct s as [|c r]; [done|].
    assert (isStrUnsignedDecimalLiteral (c :: r) = true) as Hu.
    { unfold isStrUnsignedDecimalLiteral. rewrite (span_all _ _ Hd).
      rewrite (bool_decide_eq_false_2 (c :: r = [])) by done.
      apply orb_true_r. }
    assert (((c =? cu_plus) || (c =? cu_hyphen))%N = false) as ->; [|exact Hu].
    simpl in Hd. apply andb_prop in Hd as [Hc _].
    unfold isDigit in Hc. apply andb_prop in Hc as [H1 H2].
    apply N.leb_le in H1. apply N.leb_le in H2. unfold cu_plus, cu_hyphen.
    destruct (N.eqb_spec c 43); [lia|].
    destruct (N.eqb_spec c 45); [lia|]. reflexivity. }
  rewrite orb_true_r. reflexivity.
Qed.

Lemma stripYearFromSlug_digit_year (t y : jsstring) :
  length y = 4%nat -> forallb isDigit y = true ->
  stripYearFromSlug (t ++ cu_hyphen :: y) = t.
Proof.
  intros Hl Hd. apply stripYearFromSlug_token. repeat split; [exact Hl| |].
  - intros Hin. rewrite forallb_forall in Hd.
    apply list_elem_of_In in Hin. apply Hd in Hin. discriminate Hin.
  - apply isNaN_digits; [|exact Hd]. intros ->. discriminate Hl.
Qed.

Lemma stripYearFromSlug_unchanged_or_token (s : jsstring) :
  stripYearFromSlug s = s
  \/ exists y, yearToken y /\ s = stripYearFromSlug s ++ cu_hyphen :: y.
Proof.
  destruct (decide (stripYearFromSlug s = s)) as [He|Hn]; [by left|].
  right. by apply stripYearFromSlug_changed.
Qed.

Example strip_oppenheimer_2023 :
  stripYearFromSlug (js "oppenheimer-2023") = js "oppenheimer".
Proof. vm_compute. reflexivity. Qed.

Example strip_oppenheimer :
  stripYearFromSlug (js "oppenheimer") = js "oppenheimer".
Proof. vm_compute. reflexivity. Qed.

Example strip_hex_token : stripYearFromSlug (js "area-0x51") = js "area".
Proof. vm_compute. reflexivity. Qed.

(** C1. The claim says the trailing block is removed exactly when its four
    characters are decimal digits. The code tests the block with [isNaN]
    instead: on ["film-1e10"] it removes ["-1e10"], although ['e'] is not
    a decimal digit. *)
Theorem stripYearFromSlug_strips_non_digit_token :
  stripYearFromSlug (js "film-1e10") = js "film"
  /\ slice_from (js "film-1e10") (lastIndexOf (js "film-1e10") cu_hyphen + 1)
     = js "1e10"
  /\ forallb isDigit (js "1e10") = false.
Proof. vm_compute. repeat split; reflexivity. Qed.

(** C2, as the spec states it, fails: a slug that ends in two year tokens
    loses one at each application. *)
Lemma stripYearFromSlug_not_idempotent :
  stripYearFromSlug (stripYearFromSlug (js "blade-runner-2049-2017"))
  <> stripYearFromSlug (js "blade-runner-2049-2017").
Proof. vm_compute. discriminate. Qed.

(** C2, amended. Applying the normaliser twice gives the same result as
    applying it once exactly when the input does not end in two
    consecutive hyphen-led year tokens. *)
Theorem stripYearFromSlug_twice (s : jsstring) :
  stripYearFromSlug (stripYearFromSlug s) = stripYearFromSlug s
  <-> ~ exists t y1 y2,
        yearToken y1 /\ yearToken y2
        /\ s = t ++ cu_hyphen :: y1 ++ cu_hyphen :: y2.
Proof.
  split.
  - intros Heq (t & y1 & y2 & H1 & H2 & ->).
    replace (t ++ cu_hyphen :: y1 ++ cu_hyphen :: y2)
      with ((t ++ cu_hyphen :: y1) ++ cu_hyphen :: y2) in Heq
      by (rewrite <- app_assoc; reflexivity).
    rewrite (stripYearFromSlug_token _ y2 H2) in Heq.
    rewrite (stripYearFromSlug_token _ y1 H1) in Heq.
    symmetry in Heq. by apply stripYearFromSlug_shorter in Heq.
  - intros Hno.
    destruct (decide (stripYearFromSlug (stripYearFromSlug s)
                      = stripYearFromSlug s)) as [He|Hn]; [exact He|].
    exfalso. apply Hno.
    destruct (stripYearFromSlug_changed _ Hn) as (y1 & H1 & E1).
    assert (stripYearFromSlug s <> s) as Hs by (intros E; apply Hn; by rewrite !E).
    destruct (stripYearFromSlug_changed _ Hs) as (y2 & H2 & E2).
    exists (stripYearFromSlug (stripYearFromSlug s)), y1, y2.
    split; [exact H1|]. split; [exact H2|].
    rewrite E2 at 1. rewrite E1 at 1. rewrite <- app_assoc. reflexivity.
Qed.

(** ** The page parsers never throw *)

Lemma split_head (s : jsstring) (c : codeunit) :
  exists w ws, split s c = w :: ws.
Proof.
  induction s as [|x r (w & ws & IH)]; simpl; [by eauto|].
  destruct (x =? c)%N; [by eauto|]. rewrite IH. by eauto.
Qed.

Lemma call_truthy {A} (v : option jsstring) (m : jsstring -> A) :
  truthy v = true -> exists s, v = Some s /\ s <> [] /\ call v m = Normal (m s).
Proof. destruct v as [[|c r]|]; simpl; try done. intros _. by eauto. Qed.

Lemma mapC_Normal {A B} (f : A -> completion B) (g : A -> B) (l : list A) :
  (forall x, f x = Normal (g x)) -> mapC f l = Normal (map g l).
Proof.
  intros Hf. induction l as [|x r IH]; simpl; [done|].
  rewrite Hf. simpl. rewrite IH. reflexivity.
Qed.

Lemma mapC_total {A B} (f : A -> completion B) (l : list A) :
  (forall x, exists y, f x = Normal y) ->
  exists ys, mapC f l = Normal ys /\ length ys = length l.
Proof.
  intros Hf. induction l as [|x r (ys & IH & Hl)]; simpl; [by eauto|].
  destruct (Hf x) as (y & ->). simpl. rewrite IH. simpl.
  exists (y :: ys). simpl. by rewrite Hl.
Qed.

Lemma row_filmId_Normal (row : Element) :
  row_filmId row
  = Normal (match attr (el_find row sel_film) "data-film-id" with
            | Some (c :: r) => Some (trim (c :: r))
            | _ => None
            end).
Proof.
  unfold row_filmId.
  by destruct (attr (el_find row sel_film) "data-film-id") as [[|c r]|].
Qed.

Lemma row_filmSlug_Normal (row : Element) :
  row_filmSlug row
  = Normal (match attr (el_find row sel_film) "data-film-slug" with
            | Some (c :: r) => Some (stripYearFromSlug (trim (c :: r)))
            | _ => None
            end).
Proof.
  unfold row_filmSlug.
  by destruct (attr (el_find row sel_film) "data-film-slug") as [[|c r]|].
Qed.

Lemma build_posterUrl_Normal (id slug : option jsstring) :
  build_posterUrl id slug
  = Normal (match id, slug with
            | Some (c :: i), Some (d :: s) =>
                Some (poster_prefix ++ join (split_units (c :: i)) (js "/")
                      ++ js "/" ++ (c :: i) ++ js "-" ++ (d :: s)
                      ++ poster_suffix)
            | _, _ => None
            end).
Proof.
  unfold build_posterUrl.
  destruct id as [[|c i]|]; destruct slug as [[|d s]|]; reflexivity.
Qed.

Lemma build_watchDate_Normal (Date_parse : jsstring -> option Z)
    (dateUrl : option jsstring) :
  build_watchDate Date_parse dateUrl
  = Normal (match dateUrl with
            | Some (c :: r) =>
                let dateParts := segments (c :: r) in
                let forIndex := array_indexOf dateParts (js "for") in
                if negb (forIndex =? -1)
                   && (forIndex + 3 <? Z.of_nat (length dateParts))
                then Some (new_Date Date_parse
                             (tmpl (dateParts !! Z.to_nat (forIndex + 1))
                              ++ js "-"
                              ++ tmpl (dateParts !! Z.to_nat (forIndex + 2))
                              ++ js "-"
                              ++ tmpl (dateParts !! Z.to_nat (forIndex + 3))))
                else None
            | _ => None
            end).
Proof.
  unfold build_watchDate. destruct dateUrl as [[|c r]|]; try reflexivity.
  cbn [truthy call mbind completion_bind]. fold (segments (c :: r)).
  by destruct (_ && _).
Qed.

Lemma movieOfRow_Normal (Date_parse : jsstring -> option Z) (row : Element) :
  movieOfRow Date_parse row = Normal (movie_of Date_parse row).
Proof.
  unfold movieOfRow.
  rewrite row_filmId_Normal. cbn [mbind completion_bind].
  rewrite row_filmSlug_Normal. cbn [mbind completion_bind].
  rewrite build_posterUrl_Normal. cbn [mbind completion_bind].
  rewrite build_watchDate_Normal. cbn [mbind completion_bind].
  reflexivity.
Qed.

Lemma lookup_map {A B} (f : A -> B) (l : list A) (i : nat) :
  map f l !! i = f <$> l !! i.
Proof.
  revert i. induction l as [|x r IH]; intros [|i]; simpl; try done.
Qed.

Lemma getMovieDataFromHtml_Normal (load : jsstring -> Document)
    (Date_parse : jsstring -> option Z) (html : jsstring) :
  getMovieDataFromHtml load Date_parse html
  = Normal {| movies := map (movie_of Date_parse)
                            (query (load html) "tr.diary-entry-row") |}.
Proof.
  unfold getMovieDataFromHtml.
  rewrite (mapC_Normal _ (movie_of Date_parse))
    by apply movieOfRow_Normal.
  reflexivity.
Qed.

Lemma getUserDataFromHtml_Normal (load : jsstring -> Document) (html : jsstring) :
  exists w ws,
    split (trim (text (query (load html) "title"))) cu_rsquo = w :: ws
    /\ getUserDataFromHtml load html
       = Normal {| name := substring_from (trim w) 1;
                   profilePicUrl :=
                     match attr (query (load html)
                                   ".profile-mini-person .avatar img") "src" with
                     | Some (c :: r) =>
                         if includes (c :: r) avatar_small
                         then Some (replace (c :: r) avatar_small avatar_large)
                         else None
                     | _ => None
                     end |}.
Proof.
  destruct (split_head (trim (text (query (load html) "title"))) cu_rsquo)
    as (w & ws & Hs).
  exists w, ws. split; [exact Hs|].
  unfold getUserDataFromHtml. rewrite Hs. cbn [lookup list_lookup call mbind completion_bind].
  destruct (attr (query (load html) ".profile-mini-person .avatar img") "src")
    as [[|c r]|]; cbn [truthy call mbind completion_bind]; try reflexivity.
  by destruct (includes (c :: r) avatar_small).
Qed.


(** ** Poster addresses *)

Lemma join_units_segments (id : jsstring) :
  join (split_units id) (js "/") = id_segments id.
Proof.
  destruct id as [|c r]; [reflexivity|].
  revert c. induction r as [|d r IH]; intros c; [reflexivity|].
  change (split_units (c :: d :: r)) with ([c] :: split_units (d :: r)).
  change (join ([c] :: split_units (d :: r)) (js "/"))
    with ([c] ++ js "/" ++ join (split_units (d :: r)) (js "/")).
  rewrite IH. reflexivity.
Qed.

Example poster_oppenheimer :
  exists m,
    movieOfRow Fixture.date_only_parse Fixture.row_oppenheimer = Normal m
    /\ filmId m = Some (js "784328")
    /\ title m = js "Oppenheimer"
    /\ posterUrl m
       = Some (js "https://a.ltrbxd.com/resized/film-poster/7/8/4/3/2/8/784328-oppenheimer-0-300-0-450-crop.jpg")
    /\ watchDate m = Some {| timeValue := Some 1689379200000 |}
    /\ rating m = Some (Int 8)
    /\ isLiked m = true.
Proof. eexists. split; [apply movieOfRow_Normal|]. vm_compute. tauto. Qed.

(** C5, as the spec states it, fails: a film ID attribute of white space
    is trimmed to the empty string, which is present and not null, and the
    slug is present, yet no poster address is built. *)
Lemma posterUrl_absent_for_blank_id :
  exists m,
    movieOfRow Fixture.date_only_parse Fixture.row_blank_id = Normal m
    /\ row_filmId Fixture.row_blank_id = Normal (Some [])
    /\ row_filmSlug Fixture.row_blank_id = Normal (Some (js "x"))
    /\ filmId m = Some []
    /\ posterUrl m = None.
Proof.
  eexists. split; [apply movieOfRow_Normal|]. vm_compute. tauto.
Qed.

(** C5, amended. The poster address of an entry is present exactly when
    the film ID and the slug are both present and non-empty; it is then
    the fixed prefix, the code units of the film ID as path segments, and
    [/<filmId>-<slug>-0-300-0-450-crop.jpg]. *)
Theorem posterUrl_present_iff (Date_parse : jsstring -> option Z) (row : Element) :
  exists (id slug : option jsstring) (m : Movie),
    row_filmId row = Normal id
    /\ row_filmSlug row = Normal slug
    /\ movieOfRow Date_parse row = Normal m
    /\ filmId m = id
    /\ (posterUrl m <> None
        <-> exists i s, id = Some i /\ slug = Some s /\ i <> [] /\ s <> [])
    /\ forall i s, id = Some i -> slug = Some s -> i <> [] -> s <> [] ->
         posterUrl m
         = Some (poster_prefix ++ id_segments i ++ js "/" ++ i ++ js "-"
                 ++ s ++ poster_suffix).
Proof.
  eexists _, _, _.
  split; [apply row_filmId_Normal|].
  split; [apply row_filmSlug_Normal|].
  split; [apply movieOfRow_Normal|].
  unfold movie_of. cbn [filmId posterUrl].
  split; [reflexivity|].
  destruct (match attr (el_find row sel_film) "data-film-id" with
            | Some (c :: r) => Some (trim (c :: r))
            | _ => None
            end) as [[|c i]|];
  destruct (match attr (el_find row sel_film) "data-film-slug" with
            | Some (c :: r) => Some (stripYearFromSlug (trim (c :: r)))
            | _ => None
            end) as [[|d s]|];
  (split;
   [ split;
     [ intros H; try (by destruct H); by eauto 10
     | intros (i' & s' & Hi & Hs & Hni & Hns); by simplify_eq ]
   | intros i' s' Hi Hs Hni Hns; simplify_eq;
     try rewrite join_units_segments; try reflexivity; try done ]).
Qed.

(** ** Watch dates *)

Lemma array_indexOf_bounds (parts : list jsstring) (x : jsstring) :
  -1 <= array_indexOf parts x < Z.of_nat (length parts).
Proof.
  induction parts as [|p ps IH]; simpl; [lia|].
  case_bool_decide; [lia|].
  destruct (0 <=? array_indexOf ps x) eqn:Hk; [apply Z.leb_le in Hk|]; lia.
Qed.

Lemma array_indexOf_absent (parts : list jsstring) (x : jsstring) :
  x ∉ parts -> array_indexOf parts x = -1.
Proof.
  induction parts as [|p ps IH]; simpl; [done|].
  intros Hn. apply not_elem_of_cons in Hn as [Hx Hps].
  rewrite bool_decide_eq_false_2 by congruence.
  rewrite (IH Hps). reflexivity.
Qed.

Lemma array_indexOf_app (pre post : list jsstring) (x : jsstring) :
  x ∉ pre -> array_indexOf (pre ++ x :: post) x = Z.of_nat (length pre).
Proof.
  induction pre as [|p ps IH]; simpl.
  - intros _. by rewrite bool_decide_eq_true_2.
  - intros Hn. apply not_elem_of_cons in Hn as [Hx Hps].
    rewrite bool_decide_eq_false_2 by congruence.
    rewrite (IH Hps).
    destruct (0 <=? Z.of_nat (length ps)) eqn:Hk; [lia|].
    apply Z.leb_gt in Hk. lia.
Qed.

Lemma segments_nil : segments [] = [].
Proof. reflexivity. Qed.

(** What the day link gives, by the shape of its segments. *)
Lemma watchDate_by_segments (Date_parse : jsstring -> option Z) (row : Element)
    (href : jsstring) :
  attr (el_find row sel_day) "href" = Some href ->
  (js "for" ∉ segments href -> watchDate (movie_of Date_parse row) = None)
  /\ (forall pre post,
        segments href = pre ++ js "for" :: post -> js "for" ∉ pre ->
        (length post < 3)%nat ->
        watchDate (movie_of Date_parse row) = None)
  /\ (forall pre y mo d rest,
        segments href = pre ++ js "for" :: y :: mo :: d :: rest ->
        js "for" ∉ pre ->
        watchDate (movie_of Date_parse row)
        = Some {| timeValue := Date_parse (y ++ js "-" ++ mo ++ js "-" ++ d) |}).
Proof.
  intros Hh. unfold movie_of. cbn [watchDate]. rewrite Hh.
  destruct href as [|c r].
  { rewrite segments_nil. split; [done|].
    split; intros; by destruct pre. }
  cbv zeta. split; [|split].
  - intros Hn. by rewrite (array_indexOf_absent _ _ Hn).
  - intros pre post -> Hpre Hlen.
    rewrite (array_indexOf_app _ _ _ Hpre).
    rewrite length_app. simpl length.
    replace (Z.of_nat (length pre) + 3 <? Z.of_nat (length pre + S (length post)))
      with false by (symmetry; apply Z.ltb_ge; lia).
    by rewrite andb_false_r.
  - intros pre y mo d rest -> Hpre.
    rewrite (array_indexOf_app _ _ _ Hpre).
    rewrite length_app. simpl length.
    replace (Z.of_nat (length pre) =? -1) with false
      by (symmetry; apply Z.eqb_neq; lia).
    replace (Z.of_nat (length pre) + 3
             <? Z.of_nat (length pre + S (S (S (S (length rest))))))
      with true by (symmetry; apply Z.ltb_lt; lia).
    cbn [negb andb].
    replace (Z.to_nat (Z.of_nat (length pre) + 1)) with (length pre + 1)%nat by lia.
    replace (Z.to_nat (Z.of_nat (length pre) + 2)) with (length pre + 2)%nat by lia.
    replace (Z.to_nat (Z.of_nat (length pre) + 3)) with (length pre + 3)%nat by lia.
    rewrite !lookup_app_r by lia.
    replace (length pre + 1 - length pre)%nat with 1%nat by lia.
    replace (length pre + 2 - length pre)%nat with 2%nat by lia.
    replace (length pre + 3 - length pre)%nat with 3%nat by lia.
    reflexivity.
Qed.

(** C3, as the spec states it, fails: a day link that names month 13 gives
    a watch date that is present, a Date object, and holds no calendar
    date (its time value is NaN). *)
Lemma watchDate_invalid_date_present :
  exists m d,
    movieOfRow Fixture.date_only_parse Fixture.row_month_13 = Normal m
    /\ segments (js "/bob/films/diary/for/2023/13/45/")
       = [js "bob"; js "films"; js "diary"; js "for"; js "2023"; js "13"; js "45"]
    /\ watchDate m = Some d
    /\ watchDate m <> None
    /\ timeValue d = None.
Proof.
  eexists _, _. split; [apply movieOfRow_Normal|]. vm_compute.
  repeat split; try reflexivity. discriminate.
Qed.

(** C3, amended. No day link, no [for] segment, or fewer than three
    segments after it: the watch date is absent. Otherwise it is the Date
    object built from [year-month-day], whatever these segments hold: for a
    combination the date parser rejects it is an Invalid Date, which is
    present in the entry and printed as [null] in the response. Nothing is
    thrown. *)
Theorem watchDate_reconstruction (Date_parse : jsstring -> option Z)
    (row : Element) :
  exists m,
    movieOfRow Date_parse row = Normal m
    /\ (attr (el_find row sel_day) "href" = None -> watchDate m = None)
    /\ forall href,
         attr (el_find row sel_day) "href" = Some href ->
         (js "for" ∉ segments href -> watchDate m = None)
         /\ (forall pre post,
               segments href = pre ++ js "for" :: post -> js "for" ∉ pre ->
               (length post < 3)%nat ->
               watchDate m = None)
         /\ (forall pre y mo d rest,
               segments href = pre ++ js "for" :: y :: mo :: d :: rest ->
               js "for" ∉ pre ->
               watchDate m
               = Some {| timeValue :=
                           Date_parse (y ++ js "-" ++ mo ++ js "-" ++ d) |}
               /\ (json_of_nullable json_of_date (watchDate m) = JNull
                   <-> Date_parse (y ++ js "-" ++ mo ++ js "-" ++ d) = None)).
Proof.
  exists (movie_of Date_parse row).
  split; [apply movieOfRow_Normal|].
  split; [unfold movie_of; cbn [watchDate]; by intros ->|].
  intros href Hh.
  destruct (watchDate_by_segments Date_parse row href Hh) as (H1 & H2 & H3).
  split; [exact H1|]. split; [exact H2|].
  intros pre y mo d rest Hs Hpre.
  rewrite (H3 pre y mo d rest Hs Hpre). split; [reflexivity|].
  unfold json_of_nullable, json_of_date. cbn [timeValue].
  by destruct (Date_parse _).
Qed.

(** ** Ratings *)

Lemma roundBinary64_exact (m : N) :
  (m < 2 ^ 53)%N -> roundBinary64 m = Some m.
Proof.
  intros H. unfold roundBinary64.
  by replace (m <? 2 ^ 53)%N with true by (symmetry; by apply N.ltb_lt).
Qed.

Lemma digit_not_sign (c : codeunit) :
  isDigit c = true -> (c =? cu_hyphen)%N = false /\ (c =? cu_plus)%N = false.
Proof.
  unfold isDigit, cu_hyphen, cu_plus. intros H.
  apply andb_prop in H as [H1 H2].
  apply N.leb_le in H1. apply N.leb_le in H2.
  split; apply N.eqb_neq; lia.
Qed.

(** A run of decimal digits below 2^53 is read as its value. *)
Lemma parseInt10_digits (s : jsstring) :
  s <> [] -> forallb isDigit s = true -> (digits_value s < 2 ^ 53)%N ->
  parseInt10 s = Int (Z.of_N (digits_value s)).
Proof.
  intros Hne Hd Hv. destruct s as [|c r]; [done|].
  assert (isDigit c = true) as Hc by (simpl in Hd; by apply andb_prop in Hd as [? _]).
  unfold parseInt10. rewrite (trimStart_digit_head c r Hc).
  destruct (digit_not_sign c Hc) as [-> ->].
  rewrite (span_all _ _ Hd).
  destruct (digits_value (c :: r) =? 0)%N eqn:Hz.
  - apply N.eqb_eq in Hz. by rewrite Hz.
  - by rewrite roundBinary64_exact.
Qed.

(** Without a leading integer, [parseInt] gives NaN. *)
Lemma parseInt10_NaN (s : jsstring) :
  hasIntegerPrefix s = false -> parseInt10 s = NaN.
Proof.
  unfold hasIntegerPrefix, parseInt10.
  destruct (trimStart s) as [|c r]; [done|].
  destruct (c =? cu_hyphen)%N; simpl.
  - destruct r as [|d r']; [done|]. simpl. by intros ->.
  - destruct (c =? cu_plus)%N; simpl.
    + destruct r as [|d r']; [done|]. simpl. by intros ->.
    + by intros ->.
Qed.

(** With one, it gives a number. *)
Lemma parseInt10_number (s : jsstring) :
  hasIntegerPrefix s = true -> parseInt10 s <> NaN.
Proof.
  unfold hasIntegerPrefix, parseInt10.
  destruct (trimStart s) as [|c r]; [done|].
  assert (forall (neg : bool) d t, isDigit d = true ->
            exists a b, span isDigit (d :: t) = (d :: a, b)) as Hspan.
  { intros neg d t Hd. simpl. rewrite Hd. destruct (span isDigit t) as [a b].
    by eauto. }
  assert (forall (neg : bool) z,
            (if (digits_value z =? 0)%N then (if neg then NegZero else Int 0)
             else match roundBinary64 (digits_value z) with
                  | Some v => Int (if neg then - Z.of_N v else Z.of_N v)
                  | None => if neg then NegInf else PosInf
                  end) <> NaN) as Hnum.
  { intros neg z. destruct (digits_value z =? 0)%N; [by destruct neg|].
    destruct (roundBinary64 (digits_value z)); by destruct neg. }
  destruct (c =? cu_hyphen)%N; cbn [orb].
  - destruct r as [|d r']; [done|]. intros Hd.
    destruct (Hspan true d r' Hd) as (a & b & ->). apply (Hnum true).
  - destruct (c =? cu_plus)%N.
    + destruct r as [|d r']; [done|]. intros Hd.
      destruct (Hspan true d r' Hd) as (a & b & ->). apply (Hnum false).
    + intros Hd. destruct (Hspan true c r Hd) as (a & b & ->).
      apply (Hnum false).
Qed.

Example parseInt10_examples :
  parseInt10 (js "8") = Int 8
  /\ parseInt10 (js "10") = Int 10
  /\ parseInt10 (js " 7 stars") = Int 7
  /\ parseInt10 (js "8.5") = Int 8
  /\ parseInt10 (js "-0") = NegZero
  /\ parseInt10 (js "abc") = NaN
  /\ parseInt10 [] = NaN
  /\ parseInt10 (js "9007199254740993") = Int 9007199254740992.
Proof. vm_compute. tauto. Qed.

(** C4, as the spec states it, fails: a rating attribute that holds text
    gives NaN, a number, where the claim has the rating absent. *)
Lemma rating_text_gives_NaN :
  exists m,
    movieOfRow Fixture.date_only_parse Fixture.row_rating_text = Normal m
    /\ attr (el_find Fixture.row_rating_text sel_rating) "value" = Some (js "abc")
    /\ rating m = Some NaN
    /\ rating m <> None.
Proof.
  eexists. split; [apply movieOfRow_Normal|]. vm_compute.
  repeat split; try reflexivity. discriminate.
Qed.

(** C4, amended. The rating is absent when the input has no value
    attribute; otherwise it is the number [parseInt] reads from the
    attribute: for a run of digits its integer value, and for a text
    without a leading integer NaN, which the response prints as [null].
    Nothing is thrown. *)
Theorem rating_extraction (Date_parse : jsstring -> option Z) (row : Element) :
  exists m,
    movieOfRow Date_parse row = Normal m
    /\ (attr (el_find row sel_rating) "value" = None -> rating m = None)
    /\ forall s,
         attr (el_find row sel_rating) "value" = Some s ->
         rating m = Some (parseInt10 s)
         /\ (s <> [] -> forallb isDigit s = true -> (digits_value s < 2 ^ 53)%N ->
             rating m = Some (Int (Z.of_N (digits_value s))))
         /\ (hasIntegerPrefix s = false ->
             rating m = Some NaN
             /\ json_of_nullable json_of_number (rating m) = JNull)
         /\ (hasIntegerPrefix s = true -> rating m <> Some NaN).
Proof.
  exists (movie_of Date_parse row).
  split; [apply movieOfRow_Normal|].
  unfold movie_of. cbn [rating].
  split; [by intros ->|].
  intros s ->. cbn [build_rating].
  split; [reflexivity|]. split; [|split].
  - intros Hne Hd Hv. by rewrite parseInt10_digits.
  - intros Hp. by rewrite (parseInt10_NaN s Hp).
  - intros Hp E. injection E as E. by apply parseInt10_number in Hp.
Qed.

(** ** Promise.all *)

Ltac pa_cbn :=
  cbn [PromiseAll.values PromiseAll.remaining PromiseAll.settled
       PromiseAll.first_settlement].

Section PromiseAllFacts.
Context {A : Type}.
Implicit Types (outcomes : list (completion A)) (st : PromiseAll.state A).
Implicit Types (l : list (option A)).

Lemma holes_replicate (n : nat) : holes (replicate n (@None A)) = n.
Proof. unfold holes. induction n as [|n IH]; simpl; [done|]. by rewrite IH. Qed.

Lemma holes_insert l (i : nat) (v : A) :
  l !! i = Some None -> holes l = S (holes (<[i := Some v]> l)).
Proof.
  unfold holes. revert i. induction l as [|x l IH]; intros [|i]; simpl; try done.
  - by intros [= ->].
  - intros H. specialize (IH i H). destruct x; simpl; lia.
Qed.

Lemma holes_lookup l (i : nat) : l !! i = Some None -> holes l <> 0%nat.
Proof.
  unfold holes. revert i. induction l as [|x l IH]; intros [|i]; simpl; try done.
  - by intros [= ->].
  - intros H. specialize (IH i H). destruct x; simpl; lia.
Qed.

Lemma holes_none l :
  (forall i, (i < length l)%nat -> exists v, l !! i = Some (Some v)) ->
  holes l = 0%nat.
Proof.
  unfold holes. induction l as [|x l IH]; simpl; [done|].
  intros H. destruct (H 0%nat ltac:(lia)) as [v Hv]. simpl in Hv.
  injection Hv as ->. apply IH. intros i Hi. apply (H (S i)). lia.
Qed.

Lemma all_invariant_init outcomes :
  all_invariant outcomes (PromiseAll.init (length outcomes)).
Proof.
  unfold all_invariant, PromiseAll.init.
  pa_cbn.
  split; [apply length_replicate|].
  split.
  { intros i v H. apply lookup_replicate in H as [H _]. done. }
  split; [by rewrite holes_replicate|].
  case_bool_decide as Hn; [|done].
  rewrite Hn. by destruct outcomes.
Qed.

Lemma all_invariant_settle outcomes st (i : nat) :
  all_invariant outcomes st ->
  all_invariant outcomes (PromiseAll.settle outcomes st i).
Proof.
  intros (Hlen & Hval & Hrem & Hset). unfold PromiseAll.settle.
  destruct (outcomes !! i) as [[v|e]|] eqn:Ho; [| |done].
  - destruct (PromiseAll.values st !! i) as [[w|]|] eqn:Hv; [done| |done].
    pose proof (holes_insert _ i v Hv) as Hh.
    unfold all_invariant.
    pa_cbn.
    split; [by rewrite length_insert|].
    split.
    { intros j w Hj. destruct (decide (i = j)) as [<-|Hne].
      - rewrite list_lookup_insert_eq in Hj
          by (by apply lookup_lt_Some in Hv).
        by simplify_eq.
      - rewrite list_lookup_insert_ne in Hj by done. by apply Hval. }
    split; [lia|].
    destruct (PromiseAll.settled st) as [[l|e]|]; pa_cbn.
    + destruct Hset as [_ Hz]. lia.
    + exact Hset.
    + case_bool_decide; [split; [done|lia] | lia].
  - unfold all_invariant.
    pa_cbn.
    split; [done|]. split; [done|]. split; [done|].
    destruct (PromiseAll.settled st) as [[l|e']|]; cbn; try done.
    by exists i.
Qed.

Lemma all_seen_settle outcomes st (done : list nat) (i : nat) :
  all_invariant outcomes st ->
  all_seen outcomes st done ->
  all_seen outcomes (PromiseAll.settle outcomes st i) (done ++ [i]).
Proof.
  intros (Hlen & Hval & Hrem & Hset) [Hfull Hrej].
  assert (forall j w, PromiseAll.values st !! j = Some (Some w) ->
            PromiseAll.values (PromiseAll.settle outcomes st i) !! j
            = Some (Some w)) as Hkeep.
  { intros j w Hj. unfold PromiseAll.settle.
    destruct (outcomes !! i) as [[v|e]|]; [|done|done].
    destruct (PromiseAll.values st !! i) as [[u|]|] eqn:Hv; [done| |done].
    pa_cbn. destruct (decide (i = j)) as [<-|Hne]; [congruence|].
    by rewrite list_lookup_insert_ne. }
  assert (PromiseAll.settled st <> None ->
          PromiseAll.settled (PromiseAll.settle outcomes st i) <> None)
    as Hstay.
  { intros Hs. unfold PromiseAll.settle.
    destruct (outcomes !! i) as [[v|e]|]; [| |done].
    - destruct (PromiseAll.values st !! i) as [[u|]|]; [done| |done].
      pa_cbn. by destruct (PromiseAll.settled st).
    - pa_cbn. by destruct (PromiseAll.settled st). }
  split.
  - intros j v Hj Ho. apply elem_of_app in Hj as [Hj|Hj].
    { apply Hkeep. by apply Hfull. }
    apply list_elem_of_singleton in Hj. subst j.
    unfold PromiseAll.settle. rewrite Ho.
    destruct (PromiseAll.values st !! i) as [[u|]|] eqn:Hv.
    + pose proof (Hval _ _ Hv) as Hu. rewrite Hu in Ho. by simplify_eq.
    + pa_cbn. apply list_lookup_insert_eq. by apply lookup_lt_Some in Hv.
    + apply lookup_ge_None in Hv. apply lookup_lt_Some in Ho. lia.
  - intros j e Hj Ho. apply elem_of_app in Hj as [Hj|Hj].
    { apply Hstay. by apply (Hrej j e). }
    apply list_elem_of_singleton in Hj. subst j.
    unfold PromiseAll.settle. rewrite Ho. pa_cbn.
    by destruct (PromiseAll.settled st).
Qed.

(** The state after the elements of [order] have settled. *)
Lemma all_run outcomes (order : list nat) :
  let st := fold_left (PromiseAll.settle outcomes) order
              (PromiseAll.init (length outcomes)) in
  all_invariant outcomes st /\ all_seen outcomes st order.
Proof.
  induction order as [|i order IH] using rev_ind.
  - split; [apply all_invariant_init|]. split; intros i ? Hi; by inversion Hi.
  - rewrite fold_left_app. pa_cbn. destruct IH as [Hinv Hseen].
    split; [by apply all_invariant_settle | by apply all_seen_settle].
Qed.

(** When every element fulfils and has settled, in whatever order, the
    aggregate fulfils with the values in the order of the elements. *)
Lemma all_fulfilled (vs : list A) (order : list nat) :
  (forall i, (i < length vs)%nat -> i ∈ order) ->
  PromiseAll.all (map Normal vs) order = Some (Normal (map Some vs)).
Proof.
  intros Hall. unfold PromiseAll.all.
  destruct (all_run (map Normal vs) order)
    as [(Hlen & Hval & Hrem & Hset) [Hfull _]].
  set (st := fold_left _ _ _) in *.
  rewrite length_map in Hlen.
  assert (forall i, (i < length vs)%nat ->
            exists v, vs !! i = Some v
                      /\ PromiseAll.values st !! i = Some (Some v)) as Hslot.
  { intros i Hi. destruct (lookup_lt_is_Some_2 vs i Hi) as [v Hv].
    exists v. split; [done|]. apply Hfull; [by apply Hall|].
    by rewrite lookup_map, Hv. }
  assert (PromiseAll.values st = map Some vs) as Hvals.
  { apply list_eq. intros i. rewrite lookup_map.
    destruct (decide (i < length vs)%nat) as [Hi|Hi].
    - destruct (Hslot i Hi) as (v & -> & ->). done.
    - rewrite !lookup_ge_None_2 by lia. done. }
  assert (holes (PromiseAll.values st) = 0%nat) as Hh.
  { apply holes_none. intros i Hi. rewrite Hlen in Hi.
    destruct (Hslot i Hi) as (v & _ & ->). by eauto. }
  destruct (PromiseAll.settled st) as [[l|e]|].
  - destruct Hset as [-> _]. by rewrite Hvals.
  - destruct Hset as [j Hj]. rewrite lookup_map in Hj.
    by destruct (vs !! j).
  - lia.
Qed.

(** When an element rejects and has settled, the aggregate rejects with
    the error of one of its elements. *)
Lemma all_rejected outcomes (order : list nat) (j : nat) (e : jsstring) :
  outcomes !! j = Some (Throw e) -> j ∈ order ->
  exists e' k, PromiseAll.all outcomes order = Some (Throw e')
               /\ outcomes !! k = Some (Throw e').
Proof.
  intros Hj Hin. unfold PromiseAll.all.
  destruct (all_run outcomes order)
    as [(Hlen & Hval & Hrem & Hset) [_ Hrej]].
  set (st := fold_left _ _ _) in *.
  specialize (Hrej j e Hin Hj).
  destruct (PromiseAll.settled st) as [[l|e']|];
    [|destruct Hset as [k Hk]; by eauto|done].
  exfalso. destruct Hset as [_ Hz].
  destruct (PromiseAll.values st !! j) as [[v|]|] eqn:Hv.
  - apply Hval in Hv. congruence.
  - apply holes_lookup in Hv. lia.
  - apply lookup_ge_None in Hv. apply lookup_lt_Some in Hj. lia.
Qed.
End PromiseAllFacts.

(** ** The handler *)

Lemma getUserDataFromHtml_user_of (load : jsstring -> Document) (html : jsstring) :
  getUserDataFromHtml load html = Normal (user_of load html).
Proof.
  destruct (getUserDataFromHtml_Normal load html) as (w & ws & Hs & ->).
  unfold user_of. by rewrite Hs.
Qed.

Lemma getMovieDataFromHtml_movies_of (load : jsstring -> Document)
    (Date_parse : jsstring -> option Z) (html : jsstring) :
  getMovieDataFromHtml load Date_parse html
  = Normal {| movies := movies_of load Date_parse html |}.
Proof. apply getMovieDataFromHtml_Normal. Qed.

Lemma startsWith_origin_nonempty (url : jsstring) :
  startsWith url allowed_origin = true -> exists c r, url = c :: r.
Proof. destruct url as [|c r]; [done|]. by eauto. Qed.

Lemma completions_all_or_one {A} (l : list (completion A)) :
  (exists vs, l = map Normal vs) \/ (exists j e, l !! j = Some (Throw e)).
Proof.
  induction l as [|[v|e] l [[vs ->]|(j & e' & Hj)]].
  - left. by exists [].
  - left. by exists (v :: vs).
  - right. by exists (S j), e'.
  - right. by exists 0%nat, e.
  - right. by exists 0%nat, e.
Qed.

Lemma flatMap_movies_full (ds : list MovieData) :
  flatMap_movies (map Some ds) = Normal (concat (map movies ds)).
Proof.
  unfold flatMap_movies.
  assert (mapC (fun pageData : option MovieData =>
                  match pageData with
                  | Some d => Normal (movies d)
                  | None => Throw TypeError_undefined
                  end) (map Some ds) = Normal (map movies ds)) as ->.
  { induction ds as [|d ds IH]; [done|].
    cbn [map mapC mbind completion_bind]. by rewrite IH. }
  reflexivity.
Qed.

Lemma map_Normal_Forall2 {A B} (f : A -> completion B) (l : list A) (vs : list B) :
  map f l = map Normal vs <-> Forall2 (fun x v => f x = Normal v) l vs.
Proof.
  revert vs. induction l as [|x l IH]; intros [|v vs]; simpl; split;
    try done; try (by inversion 1); try (intros; by constructor).
  - intros [= Hx Hl]. constructor; [done|]. by apply IH.
  - inversion 1 as [|???? Hx Hl]; subst. rewrite Hx. f_equal. by apply IH.
Qed.

Section HandlerFacts.
Context (load : jsstring -> Document).
Context (Date_parse : jsstring -> option Z).
Context (fetch : jsstring -> completion HttpResponse).

(** An address of the allowed origin enters the [try] block. *)
Lemma handler_accepted (event : Event) (params : gmap string jsstring)
    (url : jsstring) (order : list nat) :
  queryStringParameters event = Some params ->
  params !! "url" = Some url ->
  startsWith url allowed_origin = true ->
  handler load Date_parse fetch event order = try_block load Date_parse fetch url order.
Proof.
  intros Hq Hu Hs. unfold handler. rewrite Hq. cbv beta iota.
  match goal with
  | |- match ?x with _ => _ end = _ =>
      replace x with (Some url) by (symmetry; exact Hu)
  end.
  destruct (startsWith_origin_nonempty url Hs) as (c & r & ->).
  cbv zeta. by rewrite Hs.
Qed.

(** The first page, once fetched and read, is parsed without failure. *)
Lemma first_page_fetched (url html : jsstring) (res : HttpResponse) :
  fetch url = Normal res -> response_text res = Normal html ->
  first_page load Date_parse fetch url
  = Normal (status res,
            length (query (load html) ".paginate-pages li.paginate-page"),
            user_of load html,
            {| movies := movies_of load Date_parse html |}).
Proof.
  intros Hf Ht. unfold first_page. rewrite Hf.
  cbn [mbind completion_bind]. rewrite Ht. cbn [mbind completion_bind].
  unfold getPageCountFromHtml. cbn [mbind completion_bind].
  rewrite getUserDataFromHtml_user_of. cbn [mbind completion_bind].
  rewrite getMovieDataFromHtml_movies_of. reflexivity.
Qed.

Lemma first_page_fails (url e : jsstring) :
  fetch_fails fetch url e -> first_page load Date_parse fetch url = Throw e.
Proof.
  unfold first_page. intros [Hf|(res & Hf & Ht)]; rewrite Hf; [done|].
  cbn [mbind completion_bind]. by rewrite Ht.
Qed.

Lemma page_chain_fails (address e : jsstring) :
  fetch_fails fetch address e -> page_chain load Date_parse fetch address = Throw e.
Proof.
  unfold page_chain. intros [Hf|(res & Hf & Ht)]; rewrite Hf; [done|].
  cbn [mbind completion_bind]. by rewrite Ht.
Qed.

(** A run in which every page is fetched and parsed. *)
Lemma try_block_success (url : jsstring) (order : list nat)
    (firstStatus : Z) (pageCount : nat) (user : UserData) (data : MovieData)
    (pages : list MovieData) :
  first_page load Date_parse fetch url = Normal (firstStatus, pageCount, user, data) ->
  Forall2 (fun address d => page_chain load Date_parse fetch address = Normal d)
          (pageUrls url pageCount) pages ->
  (forall j, (j < length pages)%nat -> j ∈ order) ->
  try_block load Date_parse fetch url order
  = {| fetched := url :: pageUrls url pageCount;
       returned := Some (success_response firstStatus user
                           (movies data ++ concat (map movies pages))) |}.
Proof.
  intros H1 Hp Ho. unfold try_block. rewrite H1.
  apply map_Normal_Forall2 in Hp. rewrite Hp.
  rewrite (all_fulfilled pages order Ho).
  rewrite flatMap_movies_full. reflexivity.
Qed.

(** A run in which a later page fails. *)
Lemma try_block_page_failure (url : jsstring) (order : list nat)
    (firstStatus : Z) (pageCount : nat) (user : UserData) (data : MovieData)
    (j : nat) (e : jsstring) :
  first_page load Date_parse fetch url = Normal (firstStatus, pageCount, user, data) ->
  map (page_chain load Date_parse fetch) (pageUrls url pageCount) !! j = Some (Throw e) ->
  j ∈ order ->
  exists e',
    try_block load Date_parse fetch url order
    = {| fetched := url :: pageUrls url pageCount;
         returned := Some (failure e') |}.
Proof.
  intros H1 Hj Ho. unfold try_block. rewrite H1.
  destruct (all_rejected _ order j e Hj Ho) as (e' & k & -> & _).
  by exists e'.
Qed.
End HandlerFacts.

Lemma order_covers (order : list nat) (n : nat) :
  Permutation order (seq 0 n) -> forall j, (j < n)%nat -> j ∈ order.
Proof.
  intros Hp j Hj. rewrite Hp. apply elem_of_seq. lia.
Qed.

(** C6. In a run in which every page is fetched and parsed, the entries
    of the result are those of page 1 followed by those of pages 2, 3, ...
    in page order, each page's own order kept, whatever the order in which
    the requests for the later pages settle. *)
Theorem entries_in_page_order (load : jsstring -> Document)
    (Date_parse : jsstring -> option Z)
    (fetch : jsstring -> completion HttpResponse)
    (event : Event) (params : gmap string jsstring) (url : jsstring)
    (order : list nat) (firstStatus : Z) (pageCount : nat) (user : UserData)
    (data : MovieData) (pages : list MovieData) :
  queryStringParameters event = Some params ->
  params !! "url" = Some url ->
  startsWith url allowed_origin = true ->
  first_page load Date_parse fetch url
  = Normal (firstStatus, pageCount, user, data) ->
  Forall2 (fun address d => page_chain load Date_parse fetch address = Normal d)
          (pageUrls url pageCount) pages ->
  Permutation order (seq 0 (length pages)) ->
  returned (handler load Date_parse fetch event order)
  = Some (success_response firstStatus user
            (movies data ++ concat (map movies pages))).
Proof.
  intros Hq Hu Hs H1 Hp Ho.
  rewrite (handler_accepted _ _ _ _ _ _ _ Hq Hu Hs).
  rewrite (try_block_success _ _ _ _ _ _ _ _ _ _ H1 Hp (order_covers _ _ Ho)).
  reflexivity.
Qed.

(** Page 3 settles before page 2; the entries come out as A, B, C, D, E, F. *)
Lemma entries_in_page_order_witness :
  returned (handler Fixture.load3 Fixture.date_only_parse Fixture.net3
              (event_for Fixture.base) [1; 0]%nat)
  = Some (success_response 200
            Fixture.bob
            (map Fixture.movie_titled
               [js "A"; js "B"; js "C"; js "D"; js "E"; js "F"])).
Proof.
  apply (entries_in_page_order Fixture.load3 Fixture.date_only_parse
           Fixture.net3 (event_for Fixture.base)
           {[ "url" := Fixture.base ]} Fixture.base [1; 0]%nat 200 3%nat
           Fixture.bob
           {| movies := map Fixture.movie_titled [js "A"; js "B"] |}
           [ {| movies := map Fixture.movie_titled [js "C"; js "D"] |};
             {| movies := map Fixture.movie_titled [js "E"; js "F"] |} ]).
  - reflexivity.
  - vm_compute. reflexivity.
  - vm_compute. reflexivity.
  - vm_compute. reflexivity.
  - repeat constructor; vm_compute; reflexivity.
  - apply perm_swap.
Defined.

(** C7. An address that does not start with the allowed origin is answered
    at once with an error response, and no request is issued. *)
Theorem disallowed_origin_rejected (load : jsstring -> Document)
    (Date_parse : jsstring -> option Z)
    (fetch : jsstring -> completion HttpResponse)
    (event : Event) (order : list nat) :
  (forall params url,
     queryStringParameters event = Some params ->
     params !! "url" = Some url ->
     startsWith url allowed_origin = false) ->
  fetched (handler load Date_parse fetch event order) = []
  /\ exists message,
       returned (handler load Date_parse fetch event order)
       = Some (error_response 400 message).
Proof.
  intros H. unfold handler.
  destruct (queryStringParameters event) as [params|]; [|by eauto].
  specialize (H params).
  destruct (params !! "url") as [[|c r]|]; [by eauto| |by eauto].
  rewrite (H (c :: r)) by reflexivity.
  cbn. by eauto.
Qed.

Lemma disallowed_origin_rejected_witness :
  fetched (handler Fixture.load3 Fixture.date_only_parse Fixture.net3
             (event_for (js "https://example.com/evil")) []) = []
  /\ exists message,
       returned (handler Fixture.load3 Fixture.date_only_parse Fixture.net3
                   (event_for (js "https://example.com/evil")) [])
       = Some (error_response 400 message).
Proof.
  apply (disallowed_origin_rejected Fixture.load3 Fixture.date_only_parse
           Fixture.net3 (event_for (js "https://example.com/evil")) []).
  intros params url Hq Hu. injection Hq as <-.
  vm_compute in Hu. injection Hu as <-. vm_compute. reflexivity.
Defined.

(** C8. When a page fails in transport, the first or a later one, the
    handler returns one failure for the whole request. In every run the
    response is either that failure, which carries no entry, or the
    response that holds the entries of every page. *)
Theorem transport_failure_fails_request (load : jsstring -> Document)
    (Date_parse : jsstring -> option Z)
    (fetch : jsstring -> completion HttpResponse)
    (event : Event) (params : gmap string jsstring) (url : jsstring)
    (order : list nat) :
  queryStringParameters event = Some params ->
  params !! "url" = Some url ->
  startsWith url allowed_origin = true ->
  all_settle load Date_parse fetch url order ->
  (transport_failure load Date_parse fetch url ->
   exists e, returned (handler load Date_parse fetch event order)
             = Some (failure e))
  /\ ((exists e, returned (handler load Date_parse fetch event order)
                 = Some (failure e))
      \/ exists firstStatus pageCount user data pages,
           first_page load Date_parse fetch url
           = Normal (firstStatus, pageCount, user, data)
           /\ Forall2 (fun address d =>
                        page_chain load Date_parse fetch address = Normal d)
                     (pageUrls url pageCount) pages
           /\ returned (handler load Date_parse fetch event order)
              = Some (success_response firstStatus user
                        (movies data ++ concat (map movies pages)))).
Proof.
  intros Hq Hu Hs Hall.
  rewrite (handler_accepted _ _ _ _ _ _ _ Hq Hu Hs).
  split.
  - intros [[e He]|(st & n & user & data & j & address & e & H1 & Hj & He)].
    + apply first_page_fails with (load := load) (Date_parse := Date_parse) in He.
      unfold try_block. rewrite He. by eauto.
    + assert (map (page_chain load Date_parse fetch) (pageUrls url n) !! j
              = Some (Throw e)) as Hc.
      { rewrite lookup_map, Hj. cbn.
        by rewrite (page_chain_fails load Date_parse fetch address e He). }
      assert (j ∈ order) as Ho.
      { apply (Hall _ _ _ _ H1). by apply lookup_lt_Some in Hj. }
      destruct (try_block_page_failure _ _ _ _ _ _ _ _ _ _ _ H1 Hc Ho)
        as [e' ->].
      by eauto.
  - destruct (first_page load Date_parse fetch url)
      as [[[[st n] user] data]|e] eqn:H1.
    2:{ left. unfold try_block. rewrite H1. by eauto. }
    destruct (completions_all_or_one
                (map (page_chain load Date_parse fetch) (pageUrls url n)))
      as [[pages Hp]|(j & e & Hj)].
    + right. exists st, n, user, data, pages.
      pose proof Hp as Hf. apply map_Normal_Forall2 in Hf.
      split; [reflexivity|]. split; [exact Hf|].
      erewrite try_block_success; [reflexivity|exact H1|exact Hf|].
      intros j Hj. apply (Hall _ _ _ _ H1).
      by rewrite (Forall2_length _ _ _ Hf).
    + left.
      assert (j ∈ order) as Ho.
      { apply (Hall _ _ _ _ H1). apply lookup_lt_Some in Hj.
        by rewrite length_map in Hj. }
      destruct (try_block_page_failure _ _ _ _ _ _ _ _ _ _ _ H1 Hj Ho)
        as [e' ->].
      by eauto.
Qed.

(** Page 2 is unreachable: the request fails as a whole. *)
Lemma transport_failure_fails_request_witness :
  exists e,
    returned (handler Fixture.load3 Fixture.date_only_parse
                Fixture.net3_page2_down (event_for Fixture.base) [1; 0]%nat)
    = Some (failure e).
Proof.
  refine (proj1 (transport_failure_fails_request Fixture.load3
                   Fixture.date_only_parse Fixture.net3_page2_down
                   (event_for Fixture.base) {[ "url" := Fixture.base ]}
                   Fixture.base [1; 0]%nat _ _ _ _) _).
  - reflexivity.
  - vm_compute. reflexivity.
  - vm_compute. reflexivity.
  - intros st n user data H1 j Hj. vm_compute in H1.
    injection H1 as <- <- <- <-. vm_compute in Hj.
    destruct j as [|[|j]]; [| |lia].
    + apply list_elem_of_In. right. left. reflexivity.
    + apply list_elem_of_In. left. reflexivity.
  - right.
    exists 200, 3%nat,
      Fixture.bob,
      {| movies := map Fixture.movie_titled [js "A"; js "B"] |},
      0%nat, (Fixture.base ++ js "page/2/"),
      (js "TypeError: fetch failed").
    split; [vm_compute; reflexivity|].
    split; [vm_compute; reflexivity|].
    left. vm_compute. reflexivity.
Defined.

(** C10, as stated, fails: page 1 is fetched with status 200, page 2 is
    unreachable, and the handler answers 500. *)
Lemma status_500_when_later_page_fails :
  exists res response,
    Fixture.net3_page2_down Fixture.base = Normal res
    /\ response_text res = Normal (js "<page 1>")
    /\ status res = 200
    /\ returned (handler Fixture.load3 Fixture.date_only_parse
                   Fixture.net3_page2_down (event_for Fixture.base)
                   [0; 1]%nat)
       = Some response
    /\ statusCode response = 500
    /\ statusCode response <> status res.
Proof.
  eexists _, _. split; [vm_compute; reflexivity|].
  split; [reflexivity|]. split; [reflexivity|].
  split; [vm_compute; reflexivity|].
  split; [reflexivity|]. cbn. discriminate.
Qed.

(** C10, amended. In a run in which page 1 is fetched and read and no
    later page fails, the status code of the response is the status of the
    page 1 response, a status such as 404 included, and the body carries
    the parsed result. *)
Theorem status_of_first_page (load : jsstring -> Document)
    (Date_parse : jsstring -> option Z)
    (fetch : jsstring -> completion HttpResponse)
    (event : Event) (params : gmap string jsstring) (url : jsstring)
    (order : list nat) (res : HttpResponse) (html : jsstring)
    (pages : list MovieData) :
  queryStringParameters event = Some params ->
  params !! "url" = Some url ->
  startsWith url allowed_origin = true ->
  fetch url = Normal res ->
  response_text res = Normal html ->
  Forall2 (fun address d => page_chain load Date_parse fetch address = Normal d)
          (pageUrls url
             (length (query (load html) ".paginate-pages li.paginate-page")))
          pages ->
  Permutation order (seq 0 (length pages)) ->
  exists response,
    returned (handler load Date_parse fetch event order) = Some response
    /\ statusCode response = status res
    /\ body response
       = JObj [("movies",
                JArr (map json_of_movie
                        (movies_of load Date_parse html
                         ++ concat (map movies pages))));
               ("name", JStr (name (user_of load html)));
               ("profilePicUrl",
                json_of_nullable JStr (profilePicUrl (user_of load html)))].
Proof.
  intros Hq Hu Hs Hf Ht Hp Ho.
  pose proof (first_page_fetched load Date_parse fetch url html res Hf Ht) as H1.
  rewrite (handler_accepted _ _ _ _ _ _ _ Hq Hu Hs).
  rewrite (try_block_success _ _ _ _ _ _ _ _ _ _ H1 Hp (order_covers _ _ Ho)).
  eexists. split; [reflexivity|]. split; reflexivity.
Qed.

(** A 404 answer without diary: status 404 and an empty result. *)
Lemma status_of_first_page_witness :
  exists response,
    returned (handler Fixture.load3 Fixture.date_only_parse Fixture.net404
                (event_for Fixture.base) [])
    = Some response
    /\ statusCode response = 404
    /\ body response
       = JObj [("movies", JArr []); ("name", JStr []); ("profilePicUrl", JNull)].
Proof.
  apply (status_of_first_page Fixture.load3 Fixture.date_only_parse
           Fixture.net404 (event_for Fixture.base)
           {[ "url" := Fixture.base ]} Fixture.base []
           {| status := 404; response_text := Normal (js "<not found>") |}
           (js "<not found>") []).
  - reflexivity.
  - vm_compute. reflexivity.
  - vm_compute. reflexivity.
  - vm_compute. reflexivity.
  - reflexivity.
  - match goal with
    | |- Forall2 _ ?l [] =>
        replace l with (@nil jsstring) by (vm_compute; reflexivity)
    end.
    constructor.
  - constructor.
Defined.

(** A profile of one page with one complete row. *)
Example single_page_profile :
  handler Fixture.load3 Fixture.date_only_parse Fixture.net1
    (event_for Fixture.base) []
  = {| fetched := [Fixture.base];
       returned := Some (success_response 200
         Fixture.bob
         [ {| filmId := Some (js "784328");
              title := js "Oppenheimer";
              posterUrl := Some (js "https://a.ltrbxd.com/resized/film-poster/7/8/4/3/2/8/784328-oppenheimer-0-300-0-450-crop.jpg");
              watchDate := Some {| timeValue := Some 1689379200000 |};
              rating := Some (Int 8);
              isLiked := true |} ]) |}.
Proof. vm_compute. reflexivity. Qed.

(** * Further properties of the code *)

(** ** stripYearFromSlug *)

(** X1. A trailing hyphen and four decimal digits are removed, whatever
    precedes them. *)
Theorem strip_removes_digit_year (t y : jsstring) :
  length y = 4%nat -> forallb isDigit y = true ->
  stripYearFromSlug (t ++ cu_hyphen :: y) = t.
Proof. apply stripYearFromSlug_digit_year. Qed.

Lemma strip_removes_digit_year_witness :
  stripYearFromSlug (js "the-godfather" ++ cu_hyphen :: js "1972")
  = js "the-godfather".
Proof.
  apply (strip_removes_digit_year (js "the-godfather") (js "1972"));
    vm_compute; reflexivity.
Defined.

(** X2. A slug of fewer than five code units, or without a hyphen, comes back
    as it is. *)
Theorem strip_short_or_hyphenless (s : jsstring) :
  (length s < 5)%nat \/ cu_hyphen ∉ s -> stripYearFromSlug s = s.
Proof.
  intros [Hl|Hh]; unfold stripYearFromSlug.
  - replace (5 <=? len s) with false
      by (symmetry; apply Z.leb_gt; unfold len; lia).
    by rewrite andb_false_r.
  - apply lastIndexOf_absent in Hh. rewrite Hh.
    by destruct (negb (bool_decide (s = [])) && (5 <=? len s)).
Qed.

Lemma strip_short_or_hyphenless_witness :
  stripYearFromSlug (js "1917") = js "1917".
Proof.
  apply (strip_short_or_hyphenless (js "1917")). left. vm_compute. lia.
Defined.

(** X3. The result is a prefix of the input: either the input itself, or the
    input without its last five code units, which are a hyphen and four
    code units without hyphen. Nothing is ever added or altered. *)
Theorem strip_result_is_prefix (s : jsstring) :
  exists rest,
    s = stripYearFromSlug s ++ rest
    /\ (rest = []
        \/ exists y, rest = cu_hyphen :: y /\ length y = 4%nat /\ cu_hyphen ∉ y).
Proof.
  destruct (stripYearFromSlug_unchanged_or_token s)
    as [He|(y & (Hl & Hh & _) & Hs)].
  - exists []. rewrite He, app_nil_r. by eauto.
  - exists (cu_hyphen :: y). split; [exact Hs|]. right. by eauto.
Qed.

(** X4. When the part after the last hyphen does not have exactly four code
    units, nothing is removed, digits or not. *)
Theorem strip_keeps_other_lengths (t y : jsstring) :
  cu_hyphen ∉ y -> length y <> 4%nat ->
  stripYearFromSlug (t ++ cu_hyphen :: y) = t ++ cu_hyphen :: y.
Proof.
  intros Hh Hl.
  destruct (stripYearFromSlug_unchanged_or_token (t ++ cu_hyphen :: y))
    as [He|(y' & (Hl' & Hh' & _) & Hs)]; [exact He|].
  exfalso. apply Hl.
  assert (lastIndexOf (t ++ cu_hyphen :: y) cu_hyphen
          = lastIndexOf (stripYearFromSlug (t ++ cu_hyphen :: y)
                         ++ cu_hyphen :: y') cu_hyphen) as Hi
    by (by rewrite <- Hs).
  rewrite !lastIndexOf_app in Hi by done.
  apply (f_equal length) in Hs. rewrite !length_app in Hs. simpl in Hs.
  unfold len in Hi. lia.
Qed.

Lemma strip_keeps_other_lengths_witness :
  stripYearFromSlug (js "rocky" ++ cu_hyphen :: js "20201")
  = js "rocky" ++ cu_hyphen :: js "20201".
Proof.
  apply (strip_keeps_other_lengths (js "rocky") (js "20201")).
  - vm_compute. intros H. repeat (apply elem_of_cons in H as [H|H]; [discriminate H|]).
    by apply elem_of_nil in H.
  - vm_compute. lia.
Defined.

(** ** Trimming, searching and splitting *)

Lemma trimStart_head (s : jsstring) (c : codeunit) :
  head (trimStart s) = Some c -> isWhiteSpace c = false.
Proof.
  induction s as [|x r IH]; simpl; [done|].
  destruct (isWhiteSpace x) eqn:Hx; [exact IH|].
  simpl. by intros [= <-].
Qed.

Lemma trimStart_app (x w : jsstring) :
  trimStart (x ++ w)
  = match trimStart x with
    | [] => trimStart w
    | c :: r => (c :: r) ++ w
    end.
Proof.
  induction x as [|a x IH]; simpl; [by destruct (trimStart w)|].
  by destruct (isWhiteSpace a).
Qed.

Lemma trimEnd_app_nonws (a b : jsstring) (c : codeunit) :
  isWhiteSpace c = false -> trimEnd (a ++ c :: b) = a ++ c :: trimEnd b.
Proof.
  intros Hc. unfold trimEnd.
  rewrite reverse_app, reverse_cons.
  replace ((reverse b ++ [c]) ++ reverse a) with (reverse b ++ c :: reverse a)
    by (by rewrite <- (assoc_L (++))).
  rewrite trimStart_app.
  destruct (trimStart (reverse b)) as [|d r].
  - simpl. rewrite Hc. rewrite reverse_cons, reverse_involutive.
    reflexivity.
  - rewrite reverse_app, reverse_cons, reverse_involutive.
    by rewrite <- (assoc_L (++)).
Qed.

Lemma trimEnd_last (s : jsstring) (c : codeunit) :
  last (trimEnd s) = Some c -> isWhiteSpace c = false.
Proof. unfold trimEnd. rewrite last_reverse. apply trimStart_head. Qed.

Lemma trim_trimmed (s : jsstring) : trimmed (trim s).
Proof.
  unfold trim. split; [|apply trimEnd_last].
  intros c. pose proof (trimStart_head s) as Hh.
  destruct (trimStart s) as [|d r]; [done|].
  specialize (Hh d eq_refl).
  pose proof (trimEnd_app_nonws [] r d Hh) as He. simpl in He.
  rewrite He. simpl. by intros [= <-].
Qed.

Lemma startsWith_prefix (s p : jsstring) :
  startsWith s p = true <-> exists r, s = p ++ r.
Proof.
  revert s. induction p as [|a p IH]; intros s.
  - destruct s; simpl; split; by eauto.
  - destruct s as [|b s]; simpl.
    + split; [done|]. by intros [r Hr].
    + rewrite andb_true_iff, N.eqb_eq, IH. split.
      * intros [-> [r ->]]. by exists r.
      * intros [r [= -> ->]]. by eauto.
Qed.





Lemma split_no_separator (a : jsstring) (c : codeunit) :
  c ∉ a -> split a c = [a].
Proof.
  induction a as [|x a IH]; simpl; [done|].
  intros Hn. apply not_elem_of_cons in Hn as [Hx Ha].
  replace (x =? c)%N with false by (symmetry; apply N.eqb_neq; congruence).
  by rewrite (IH Ha).
Qed.

Lemma split_at_separator (a b : jsstring) (c : codeunit) :
  c ∉ a -> split (a ++ c :: b) c = a :: split b c.
Proof.
  induction a as [|x a IH]; simpl.
  - intros _. by rewrite N.eqb_refl.
  - intros Hn. apply not_elem_of_cons in Hn as [Hx Ha].
    replace (x =? c)%N with false by (symmetry; apply N.eqb_neq; congruence).
    by rewrite (IH Ha).
Qed.

Lemma split_pieces (s : jsstring) (c : codeunit) :
  Forall (fun p => c ∉ p) (split s c).
Proof.
  induction s as [|x r IH]; simpl.
  - constructor; [apply not_elem_of_nil|constructor].
  - destruct (x =? c)%N eqn:Hx.
    + constructor; [apply not_elem_of_nil|exact IH].
    + apply N.eqb_neq in Hx. destruct (split r c) as [|w ws].
      * constructor; [|constructor]. apply not_elem_of_cons.
        split; [congruence|apply not_elem_of_nil].
      * inversion IH as [|?? Hw Hws]; subst. constructor; [|exact Hws].
        apply not_elem_of_cons. split; [congruence|exact Hw].
Qed.

Lemma trimmed_trim (s : jsstring) : trimmed s -> trim s = s.
Proof.
  intros [Hh Hl]. unfold trim.
  assert (trimStart s = s) as ->.
  { destruct s as [|c r]; [done|]. simpl. by rewrite (Hh c eq_refl). }
  destruct (last s) as [l|] eqn:El.
  - apply last_Some in El as [a ->].
    rewrite (trimEnd_app_nonws a [] l) by (by apply Hl).
    reflexivity.
  - apply last_None in El. by subst s.
Qed.

Lemma substring_from_1 (c : codeunit) (s : jsstring) :
  substring_from (c :: s) 1 = s.
Proof.
  unfold substring_from, len. simpl length.
  replace (Z.to_nat (Z.min (Z.max 1 0) (Z.of_nat (S (length s))))) with 1%nat
    by lia.
  reflexivity.
Qed.

(** ** getUserDataFromHtml *)

(** X5. A title made of one leading mark, the name, the apostrophe U+2019 and
    anything after it gives the name, white space at its end removed. The
    mark is dropped whatever it is. *)
Theorem name_from_title (load : jsstring -> Document) (html : jsstring)
    (mark : codeunit) (n rest : jsstring) :
  text (query (load html) "title") = mark :: n ++ cu_rsquo :: rest ->
  isWhiteSpace mark = false -> mark <> cu_rsquo -> cu_rsquo ∉ n ->
  exists u, getUserDataFromHtml load html = Normal u /\ name u = trimEnd n.
Proof.
  intros Ht Hm Hq Hn. exists (user_of load html).
  split; [apply getUserDataFromHtml_user_of|].
  unfold user_of. cbn [name]. rewrite Ht.
  assert (trim (mark :: n ++ cu_rsquo :: rest)
          = (mark :: n) ++ cu_rsquo :: trimEnd rest) as ->.
  { unfold trim. simpl trimStart. rewrite Hm.
    exact (trimEnd_app_nonws (mark :: n) rest cu_rsquo eq_refl). }
  rewrite split_at_separator
    by (apply not_elem_of_cons; split; [congruence|exact Hn]).
  unfold trim. simpl trimStart. rewrite Hm.
  pose proof (trimEnd_app_nonws [] n mark Hm) as He. simpl in He. rewrite He.
  apply substring_from_1.
Qed.

Lemma name_from_title_witness :
  exists u,
    getUserDataFromHtml Fixture.load3 (js "<page 1>") = Normal u
    /\ name u = trimEnd (js "Bob").
Proof.
  apply (name_from_title Fixture.load3 (js "<page 1>") 8206%N (js "Bob")
           (js "s film diary " ++ [8226%N] ++ js " Letterboxd")).
  - vm_compute. reflexivity.
  - vm_compute. reflexivity.
  - discriminate.
  - vm_compute. intros H.
    repeat (apply elem_of_cons in H as [H|H]; [discriminate H|]).
    by apply elem_of_nil in H.
Defined.


(** ** getMovieDataFromHtml *)

(** X8. The title of an entry, and its film ID when there is one, carry no
    white space at either end. *)
Theorem movie_text_is_trimmed (Date_parse : jsstring -> option Z)
    (row : Element) :
  exists m,
    movieOfRow Date_parse row = Normal m
    /\ trimmed (title m)
    /\ forall i, filmId m = Some i -> trimmed i.
Proof.
  exists (movie_of Date_parse row). split; [apply movieOfRow_Normal|].
  unfold movie_of. cbn [title filmId]. split; [apply trim_trimmed|].
  intros i. destruct (attr (el_find row sel_film) "data-film-id")
    as [[|c r]|]; try done.
  intros [= <-]. apply trim_trimmed.
Qed.

Lemma span_until (p : codeunit -> bool) (ds rest : jsstring) (c : codeunit) :
  forallb p ds = true -> p c = false ->
  span p (ds ++ c :: rest) = (ds, c :: rest).
Proof.
  intros Hd Hc. induction ds as [|d ds IH]; simpl; [by rewrite Hc|].
  simpl in Hd. apply andb_prop in Hd as [H1 H2]. by rewrite H1, (IH H2).
Qed.

(** X9. A rating text that starts with digits is read as these digits; what
    follows the first character that is no digit is ignored. *)
Theorem rating_reads_leading_digits (Date_parse : jsstring -> option Z)
    (row : Element) (ds rest : jsstring) (c : codeunit) :
  attr (el_find row sel_rating) "value" = Some (ds ++ c :: rest) ->
  ds <> [] -> forallb isDigit ds = true -> isDigit c = false ->
  (digits_value ds < 2 ^ 53)%N ->
  exists m,
    movieOfRow Date_parse row = Normal m
    /\ rating m = Some (Int (Z.of_N (digits_value ds))).
Proof.
  intros Ha Hne Hd Hc Hv. exists (movie_of Date_parse row).
  split; [apply movieOfRow_Normal|].
  unfold movie_of. cbn [rating]. rewrite Ha. cbn [build_rating]. f_equal.
  destruct ds as [|d ds]; [done|].
  assert (isDigit d = true) as Hd0
    by (simpl in Hd; by apply andb_prop in Hd as [? _]).
  unfold parseInt10.
  change ((d :: ds) ++ c :: rest) with (d :: (ds ++ c :: rest)).
  rewrite (trimStart_digit_head d _ Hd0).
  destruct (digit_not_sign d Hd0) as [-> ->].
  change (d :: (ds ++ c :: rest)) with ((d :: ds) ++ c :: rest).
  rewrite (span_until _ _ _ _ Hd Hc).
  destruct (digits_value (d :: ds) =? 0)%N eqn:Hz.
  - apply N.eqb_eq in Hz. by rewrite Hz.
  - by rewrite roundBinary64_exact.
Qed.

Lemma rating_reads_leading_digits_witness :
  exists m,
    movieOfRow Fixture.date_only_parse
      (Fixture.diary_row [] [] []
         [Fixture.leaf {[ "value" := js "8.5" ]} []] []) = Normal m
    /\ rating m = Some (Int (Z.of_N (digits_value (js "8")))).
Proof.
  apply (rating_reads_leading_digits Fixture.date_only_parse _ (js "8")
           (js "5") cu_dot).
  - vm_compute. reflexivity.
  - discriminate.
  - vm_compute. reflexivity.
  - vm_compute. reflexivity.
  - vm_compute. reflexivity.
Defined.

(** ** Promise.all, further *)

Section PromiseAllOrder.
Context {A : Type}.
Implicit Types (outcomes : list (completion A)) (st : PromiseAll.state A).

Lemma all_stems_settle outcomes st (done : list nat) (i : nat) :
  all_stems outcomes st done ->
  all_stems outcomes (PromiseAll.settle outcomes st i) (done ++ [i]).
Proof.
  intros [Hrej Hval]. unfold PromiseAll.settle.
  destruct (outcomes !! i) as [[v|e]|] eqn:Ho.
  - destruct (PromiseAll.values st !! i) as [[w|]|] eqn:Hv.
    + split.
      * intros e He. destruct (Hrej e He) as (k & Hk & Hok).
        exists k. split; [set_solver|done].
      * intros k w' Hk. apply Hval in Hk. set_solver.
    + split; pa_cbn.
      * intros e He.
        destruct (PromiseAll.settled st) as [[l|e']|] eqn:Hs.
        -- done.
        -- destruct (Hrej e He) as (k & Hk & Hok).
           exists k. split; [set_solver|done].
        -- by case_bool_decide.
      * intros k w' Hk. destruct (decide (i = k)) as [<-|Hne]; [set_solver|].
        rewrite list_lookup_insert_ne in Hk by done.
        apply Hval in Hk. set_solver.
    + split.
      * intros e He. destruct (Hrej e He) as (k & Hk & Hok).
        exists k. split; [set_solver|done].
      * intros k w' Hk. apply Hval in Hk. set_solver.
  - split; pa_cbn.
    + intros e' He'. destruct (PromiseAll.settled st) as [[l|e'']|] eqn:Hs.
      * done.
      * destruct (Hrej e' He') as (k & Hk & Hok).
        exists k. split; [set_solver|done].
      * injection He' as <-. exists i. split; [set_solver|done].
    + intros k w' Hk. apply Hval in Hk. set_solver.
  - split.
    + intros e He. destruct (Hrej e He) as (k & Hk & Hok).
      exists k. split; [set_solver|done].
    + intros k w' Hk. apply Hval in Hk. set_solver.
Qed.

Lemma all_stems_run outcomes (order : list nat) :
  all_stems outcomes
    (fold_left (PromiseAll.settle outcomes) order
       (PromiseAll.init (length outcomes))) order.
Proof.
  induction order as [|i order IH] using rev_ind.
  - split; cbn.
    + intros e. by case_bool_decide.
    + intros i v H. apply lookup_replicate in H as [H _]. done.
  - rewrite fold_left_app. cbn [fold_left]. by apply all_stems_settle.
Qed.

(** Once the aggregate has settled, later settlements of elements leave
    its settlement as it is. *)
Lemma settled_stays outcomes st (order : list nat)
    (r : completion (list (option A))) :
  PromiseAll.settled st = Some r ->
  PromiseAll.settled (fold_left (PromiseAll.settle outcomes) order st)
  = Some r.
Proof.
  revert st. induction order as [|i order IH]; intros st Hs; [done|].
  cbn [fold_left]. apply IH. unfold PromiseAll.settle.
  destruct (outcomes !! i) as [[v|e]|]; [| |done].
  - destruct (PromiseAll.values st !! i) as [[w|]|]; [done| |done].
    pa_cbn. by rewrite Hs.
  - pa_cbn. by rewrite Hs.
Qed.

(** The aggregate rejects with the error of the element that rejects
    first. *)
Lemma all_first_rejection outcomes (before after : list nat) (j : nat)
    (e : jsstring) :
  outcomes !! j = Some (Throw e) ->
  (forall i e', i ∈ before -> outcomes !! i <> Some (Throw e')) ->
  PromiseAll.all outcomes (before ++ j :: after) = Some (Throw e).
Proof.
  intros Hj Hb. unfold PromiseAll.all. rewrite fold_left_app.
  cbn [fold_left]. apply settled_stays.
  destruct (all_run outcomes before) as [(Hlen & Hval & Hrem & Hset) _].
  destruct (all_stems_run outcomes before) as [Hrej _].
  set (st := fold_left _ before _) in *.
  unfold PromiseAll.settle. rewrite Hj. pa_cbn.
  destruct (PromiseAll.settled st) as [[l|e']|] eqn:Hs; [| |done].
  - exfalso. destruct Hset as [_ Hz].
    destruct (PromiseAll.values st !! j) as [[v|]|] eqn:Hv.
    + apply Hval in Hv. congruence.
    + apply holes_lookup in Hv. lia.
    + apply lookup_ge_None in Hv. apply lookup_lt_Some in Hj. lia.
  - exfalso. destruct (Hrej e' eq_refl) as (k & Hk & Hok).
    by apply (Hb k e').
Qed.

(** While an element has not settled and none has rejected, the
    aggregate is pending. *)
Lemma all_pending outcomes (order : list nat) (j : nat) :
  (j < length outcomes)%nat -> j ∉ order ->
  (forall i e, i ∈ order -> outcomes !! i <> Some (Throw e)) ->
  PromiseAll.all outcomes order = None.
Proof.
  intros Hj Hn Hok. unfold PromiseAll.all.
  destruct (all_run outcomes order) as [(Hlen & Hval & Hrem & Hset) _].
  destruct (all_stems_run outcomes order) as [Hrej Hfrom].
  set (st := fold_left _ order _) in *.
  destruct (PromiseAll.settled st) as [[l|e]|] eqn:Hs; [| |done].
  - exfalso. destruct Hset as [_ Hz].
    destruct (PromiseAll.values st !! j) as [[v|]|] eqn:Hv.
    + apply Hfrom in Hv. done.
    + apply holes_lookup in Hv. lia.
    + apply lookup_ge_None in Hv. lia.
  - exfalso. destruct (Hrej e eq_refl) as (k & Hk & Hke).
    by apply (Hok k e).
Qed.

(** Without elements the aggregate fulfils at once. *)
Lemma all_of_nothing (order : list nat) :
  PromiseAll.all (@nil (completion A)) order = Some (Normal []).
Proof. unfold PromiseAll.all. by apply settled_stays. Qed.
End PromiseAllOrder.

(** ** The pagination loop *)

Lemma js_left_inverse (s : string) :
  string_of_list_ascii (map ascii_of_N (js s)) = s.
Proof.
  unfold js. rewrite map_map.
  rewrite (map_ext _ (fun x => x)) by (intros; apply ascii_N_embedding).
  rewrite map_id. apply string_of_list_ascii_of_string.
Qed.

Lemma decimal_inj (a b : nat) : decimal a = decimal b -> a = b.
Proof.
  unfold decimal. intros H.
  apply (f_equal (fun l => string_of_list_ascii (map ascii_of_N l))) in H.
  rewrite !js_left_inverse in H.
  apply (f_equal NilEmpty.uint_of_string) in H.
  rewrite !NilEmpty.usu in H. injection H as H.
  apply (f_equal Nat.of_uint) in H.
  by rewrite !DecimalNat.Unsigned.of_to in H.
Qed.

Lemma NoDup_map_injective {A B} (f : A -> B) (l : list A) :
  (forall a b, f a = f b -> a = b) -> NoDup l -> NoDup (map f l).
Proof.
  intros Hf. induction 1 as [|x l Hx Hl IH]; simpl; constructor; [|exact IH].
  intros Hin. apply list_elem_of_In, in_map_iff in Hin as (y & Hy & Hyin).
  apply Hf in Hy. subst y. by apply list_elem_of_In in Hyin.
Qed.

Lemma pageUrls_length (url : jsstring) (pageCount : nat) :
  length (pageUrls url pageCount) = (pageCount - 1)%nat.
Proof. unfold pageUrls. by rewrite length_map, length_seq. Qed.

Lemma pageUrls_NoDup (url : jsstring) (pageCount : nat) :
  NoDup (pageUrls url pageCount).
Proof.
  unfold pageUrls. apply NoDup_map_injective; [|apply NoDup_seq].
  intros a b H. apply app_inv_head in H. apply app_inv_head in H.
  apply app_inv_tail in H. by apply decimal_inj.
Qed.

(** X12. The loop plans pages 2 to [pageCount], in this order and each once:
    none when [pageCount] is 0 or 1, else [pageCount - 1] addresses, the
    k-th being the base address followed by [page/<k+2>/]. *)
Theorem pageUrls_plan (url : jsstring) (pageCount : nat) :
  length (pageUrls url pageCount) = (pageCount - 1)%nat
  /\ (forall k, (k < pageCount - 1)%nat ->
        pageUrls url pageCount !! k
        = Some (url ++ js "page/" ++ decimal (k + 2) ++ js "/"))
  /\ NoDup (pageUrls url pageCount).
Proof.
  split; [apply pageUrls_length|]. split; [|apply pageUrls_NoDup].
  intros k Hk. unfold pageUrls. rewrite lookup_map, lookup_seq_lt by done.
  replace (k + 2)%nat with (2 + k)%nat by lia. reflexivity.
Qed.

(** ** The handler, further *)

Lemma startsWith_app (s p x : jsstring) :
  startsWith s p = true -> startsWith (s ++ x) p = true.
Proof.
  intros H. apply startsWith_prefix in H as [r ->].
  apply startsWith_prefix. exists (r ++ x). by rewrite <- (assoc_L (++)).
Qed.

Lemma try_block_fetched (load : jsstring -> Document)
    (Date_parse : jsstring -> option Z)
    (fetch : jsstring -> completion HttpResponse)
    (url : jsstring) (order : list nat) :
  fetched (try_block load Date_parse fetch url order)
  = url :: match first_page load Date_parse fetch url with
           | Normal (_, pageCount, _, _) => pageUrls url pageCount
           | Throw _ => []
           end.
Proof.
  unfold try_block.
  destruct (first_page load Date_parse fetch url)
    as [[[[st n] user] data]|e]; [|done].
  destruct (PromiseAll.all _ order) as [[l|e]|]; [|done|done].
  by destruct (flatMap_movies l).
Qed.

(** X13. A request without [url] parameter, or with an empty one, is answered
    400 "No URL provided"; one whose [url] is not empty and lies outside
    the allowed origin is answered 400 "Invalid URL". Neither issues a
    request. *)
Theorem handler_guards (load : jsstring -> Document)
    (Date_parse : jsstring -> option Z)
    (fetch : jsstring -> completion HttpResponse)
    (event : Event) (order : list nat) :
  (queryStringParameters event = None
   \/ (exists params, queryStringParameters event = Some params
                      /\ (params !! "url" = None \/ params !! "url" = Some []))
   -> handler load Date_parse fetch event order
      = {| fetched := [];
           returned := Some (error_response 400 (js "No URL provided")) |})
  /\ (forall params url,
        queryStringParameters event = Some params ->
        params !! "url" = Some url -> url <> [] ->
        startsWith url allowed_origin = false ->
        handler load Date_parse fetch event order
        = {| fetched := [];
             returned := Some (error_response 400 (js "Invalid URL")) |}).
Proof.
  unfold handler. split.
  - intros [->|(params & -> & Hu)]; [done|].
    destruct (params !! "url") as [[|c r]|]; [done| |done].
    by destruct Hu.
  - intros params url -> Hu Hne Hs.
    destruct (params !! "url") as [[|c r]|]; [by simplify_eq| |done].
    injection Hu as <-. by rewrite Hs.
Qed.

(** X14. Every address the handler requests, the first page or a later one,
    starts with the allowed origin. *)
Theorem requests_stay_on_origin (load : jsstring -> Document)
    (Date_parse : jsstring -> option Z)
    (fetch : jsstring -> completion HttpResponse)
    (event : Event) (order : list nat) :
  Forall (fun address => startsWith address allowed_origin = true)
         (fetched (handler load Date_parse fetch event order)).
Proof.
  unfold handler.
  destruct (queryStringParameters event) as [params|]; [|by constructor].
  destruct (params !! "url") as [[|c r]|]; [by constructor| |by constructor].
  cbv zeta. cbn [truthy negb orb].
  destruct (startsWith (c :: r) allowed_origin) eqn:Hs; [|by constructor].
  cbn [negb]. rewrite try_block_fetched. constructor; [exact Hs|].
  destruct (first_page load Date_parse fetch (c :: r))
    as [[[[st n] user] data]|e]; [|constructor].
  unfold pageUrls. apply Forall_forall. intros a Ha.
  apply list_elem_of_In, in_map_iff in Ha as (i & <- & _).
  by apply startsWith_app.
Qed.

(** X15. The requests of a run do not depend on the order of settlement: the
    first page, then, if it was fetched and parsed, every later page it
    announces, also when one of them fails; no address is requested
    twice. *)
Theorem requests_issued (load : jsstring -> Document)
    (Date_parse : jsstring -> option Z)
    (fetch : jsstring -> completion HttpResponse)
    (event : Event) (params : gmap string jsstring) (url : jsstring)
    (order : list nat) :
  queryStringParameters event = Some params ->
  params !! "url" = Some url ->
  startsWith url allowed_origin = true ->
  fetched (handler load Date_parse fetch event order)
  = url :: match first_page load Date_parse fetch url with
           | Normal (_, pageCount, _, _) => pageUrls url pageCount
           | Throw _ => []
           end
  /\ NoDup (fetched (handler load Date_parse fetch event order)).
Proof.
  intros Hq Hu Hs.
  rewrite (handler_accepted _ _ _ _ _ _ _ Hq Hu Hs), try_block_fetched.
  split; [reflexivity|]. apply NoDup_cons. split.
  - destruct (first_page load Date_parse fetch url)
      as [[[[st n] user] data]|e]; [|apply not_elem_of_nil].
    unfold pageUrls. intros Hin. apply list_elem_of_In in Hin.
    apply in_map_iff in Hin as (i & Hi & _).
    apply (f_equal length) in Hi. rewrite !length_app in Hi.
    simpl in Hi. lia.
  - destruct (first_page load Date_parse fetch url)
      as [[[[st n] user] data]|e]; [|constructor].
    apply pageUrls_NoDup.
Qed.

Lemma requests_issued_witness :
  fetched (handler Fixture.load3 Fixture.date_only_parse
             Fixture.net3_page2_down (event_for Fixture.base) [1; 0]%nat)
  = [Fixture.base; Fixture.base ++ js "page/2/"; Fixture.base ++ js "page/3/"]
  /\ NoDup (fetched (handler Fixture.load3 Fixture.date_only_parse
                       Fixture.net3_page2_down (event_for Fixture.base)
                       [1; 0]%nat)).
Proof.
  apply (requests_issued Fixture.load3 Fixture.date_only_parse
           Fixture.net3_page2_down (event_for Fixture.base)
           {[ "url" := Fixture.base ]} Fixture.base [1; 0]%nat).
  - reflexivity.
  - vm_compute. reflexivity.
  - vm_compute. reflexivity.
Defined.

Lemma page_chain_outcomes (load : jsstring -> Document)
    (Date_parse : jsstring -> option Z)
    (fetch : jsstring -> completion HttpResponse)
    (urls : list jsstring) (i : nat) (e : jsstring) :
  (forall a, urls !! i = Some a ->
             exists d, page_chain load Date_parse fetch a = Normal d) ->
  map (page_chain load Date_parse fetch) urls !! i <> Some (Throw e).
Proof.
  intros H. rewrite lookup_map. destruct (urls !! i) as [a|]; [|done].
  destruct (H a eq_refl) as [d Hd]. cbn. rewrite Hd. done.
Qed.

(** X16. When later pages fail, the response carries the error of the one that
    settles first, after the fixed text "Failed to fetch data: ". *)
Theorem failure_reports_first_rejection (load : jsstring -> Document)
    (Date_parse : jsstring -> option Z)
    (fetch : jsstring -> completion HttpResponse)
    (event : Event) (params : gmap string jsstring) (url : jsstring)
    (before after : list nat) (j : nat) (address e : jsstring)
    (firstStatus : Z) (pageCount : nat) (user : UserData) (data : MovieData) :
  queryStringParameters event = Some params ->
  params !! "url" = Some url ->
  startsWith url allowed_origin = true ->
  first_page load Date_parse fetch url
  = Normal (firstStatus, pageCount, user, data) ->
  pageUrls url pageCount !! j = Some address ->
  page_chain load Date_parse fetch address = Throw e ->
  (forall i a, i ∈ before -> pageUrls url pageCount !! i = Some a ->
               exists d, page_chain load Date_parse fetch a = Normal d) ->
  returned (handler load Date_parse fetch event (before ++ j :: after))
  = Some {| statusCode := 500;
            headers := [];
            body := JObj [("error", JStr (js "Failed to fetch data: " ++ e))] |}.
Proof.
  intros Hq Hu Hs H1 Hj He Hb.
  rewrite (handler_accepted _ _ _ _ _ _ _ Hq Hu Hs).
  unfold try_block. rewrite H1.
  rewrite (all_first_rejection _ before after j e).
  - reflexivity.
  - by rewrite lookup_map, Hj; cbn; rewrite He.
  - intros i e' Hi. apply page_chain_outcomes. intros a Ha. by apply (Hb i).
Qed.

(** Pages 2 and 3 both fail; page 3 settles first and its error is the
    one reported. *)
Lemma failure_reports_first_rejection_witness :
  returned (handler Fixture.load3 Fixture.date_only_parse
              Outage.net3_pages_down (event_for Fixture.base) [1; 0]%nat)
  = Some {| statusCode := 500;
            headers := [];
            body := JObj [("error",
                           JStr (js "Failed to fetch data: "
                                 ++ js "TypeError: terminated"))] |}.
Proof.
  apply (failure_reports_first_rejection Fixture.load3
           Fixture.date_only_parse Outage.net3_pages_down
           (event_for Fixture.base) {[ "url" := Fixture.base ]} Fixture.base
           [] [0%nat] 1%nat (Fixture.base ++ js "page/3/")
           (js "TypeError: terminated") 200 3%nat Fixture.bob
           {| movies := map Fixture.movie_titled [js "A"; js "B"] |}).
  - reflexivity.
  - vm_compute. reflexivity.
  - vm_compute. reflexivity.
  - vm_compute. reflexivity.
  - vm_compute. reflexivity.
  - vm_compute. reflexivity.
  - intros i a Hi. by apply elem_of_nil in Hi.
Defined.

(** X17. A first page that announces no pagination, or one page, is answered
    from that page alone: one request, and no settlement to wait for. *)
Theorem single_page_answered_at_once (load : jsstring -> Document)
    (Date_parse : jsstring -> option Z)
    (fetch : jsstring -> completion HttpResponse)
    (event : Event) (params : gmap string jsstring) (url : jsstring)
    (order : list nat) (res : HttpResponse) (html : jsstring) :
  queryStringParameters event = Some params ->
  params !! "url" = Some url ->
  startsWith url allowed_origin = true ->
  fetch url = Normal res ->
  response_text res = Normal html ->
  (length (query (load html) ".paginate-pages li.paginate-page") <= 1)%nat ->
  handler load Date_parse fetch event order
  = {| fetched := [url];
       returned := Some (success_response (status res) (user_of load html)
                           (movies_of load Date_parse html)) |}.
Proof.
  intros Hq Hu Hs Hf Ht Hn.
  rewrite (handler_accepted _ _ _ _ _ _ _ Hq Hu Hs).
  unfold try_block.
  rewrite (first_page_fetched load Date_parse fetch url html res Hf Ht).
  unfold pageUrls.
  replace (length (query (load html) ".paginate-pages li.paginate-page") - 1)%nat
    with 0%nat by lia.
  cbn [seq map]. rewrite all_of_nothing.
  cbn. by rewrite app_nil_r.
Qed.

Lemma single_page_answered_at_once_witness :
  handler Fixture.load3 Fixture.date_only_parse Fixture.net1
    (event_for Fixture.base) [3; 0]%nat
  = {| fetched := [Fixture.base];
       returned := Some (success_response 200
                           (user_of Fixture.load3 (js "<one row>"))
                           (movies_of Fixture.load3 Fixture.date_only_parse
                              (js "<one row>"))) |}.
Proof.
  apply (single_page_answered_at_once Fixture.load3 Fixture.date_only_parse
           Fixture.net1 (event_for Fixture.base) {[ "url" := Fixture.base ]}
           Fixture.base [3; 0]%nat
           {| status := 200; response_text := Normal (js "<one row>") |}
           (js "<one row>")).
  - reflexivity.
  - vm_compute. reflexivity.
  - vm_compute. reflexivity.
  - vm_compute. reflexivity.
  - reflexivity.
  - vm_compute. lia.
Defined.

(** X18. While the request for some later page has not settled and none has
    failed, the handler does not return: there is no partial answer. *)
Theorem handler_waits_for_every_page (load : jsstring -> Document)
    (Date_parse : jsstring -> option Z)
    (fetch : jsstring -> completion HttpResponse)
    (event : Event) (params : gmap string jsstring) (url : jsstring)
    (order : list nat) (j : nat)
    (firstStatus : Z) (pageCount : nat) (user : UserData) (data : MovieData) :
  queryStringParameters event = Some params ->
  params !! "url" = Some url ->
  startsWith url allowed_origin = true ->
  first_page load Date_parse fetch url
  = Normal (firstStatus, pageCount, user, data) ->
  (j < pageCount - 1)%nat -> j ∉ order ->
  (forall i a, i ∈ order -> pageUrls url pageCount !! i = Some a ->
               exists d, page_chain load Date_parse fetch a = Normal d) ->
  returned (handler load Date_parse fetch event order) = None.
Proof.
  intros Hq Hu Hs H1 Hj Hn Hok.
  rewrite (handler_accepted _ _ _ _ _ _ _ Hq Hu Hs).
  unfold try_block. rewrite H1.
  rewrite (all_pending _ order j).
  - reflexivity.
  - rewrite length_map. by rewrite pageUrls_length.
  - exact Hn.
  - intros i e Hi. apply page_chain_outcomes. intros a Ha. by apply (Hok i).
Qed.

Lemma handler_waits_for_every_page_witness :
  returned (handler Fixture.load3 Fixture.date_only_parse Fixture.net3
              (event_for Fixture.base) [1%nat]) = None.
Proof.
  apply (handler_waits_for_every_page Fixture.load3 Fixture.date_only_parse
           Fixture.net3 (event_for Fixture.base) {[ "url" := Fixture.base ]}
           Fixture.base [1%nat] 0%nat 200 3%nat Fixture.bob
           {| movies := map Fixture.movie_titled [js "A"; js "B"] |}).
  - reflexivity.
  - vm_compute. reflexivity.
  - vm_compute. reflexivity.
  - vm_compute. reflexivity.
  - lia.
  - intros H. apply list_elem_of_singleton in H. discriminate H.
  - intros i a Hi Ha. apply list_elem_of_singleton in Hi. subst i.
    vm_compute in Ha. injection Ha as <-. eexists. vm_compute. reflexivity.
Defined.

(** ** Rows, further *)

Lemma array_indexOf_cut (parts : list jsstring) (x : jsstring) :
  0 <= array_indexOf parts x ->
  exists pre post,
    parts = pre ++ x :: post /\ (x ∉ pre)
    /\ array_indexOf parts x = Z.of_nat (length pre).
Proof.
  induction parts as [|p ps IH]; simpl; [lia|].
  case_bool_decide as Hp.
  - intros _. subst p. exists [], ps. split; [done|].
    split; [apply not_elem_of_nil|done].
  - pose proof (array_indexOf_bounds ps x) as Hb.
    destruct (0 <=? array_indexOf ps x) eqn:Hk; [|lia].
    apply Z.leb_le in Hk. intros _.
    destruct (IH Hk) as (pre & post & -> & Hpre & Hi).
    exists (p :: pre), post. split; [done|].
    split; [apply not_elem_of_cons; by split|].
    rewrite Hi. simpl length. lia.
Qed.

Lemma array_indexOf_present (parts : list jsstring) (x : jsstring) :
  x ∈ parts -> 0 <= array_indexOf parts x.
Proof.
  induction parts as [|p ps IH]; simpl; [by intros H; apply elem_of_nil in H|].
  intros Hin. case_bool_decide as Hp; [lia|].
  apply elem_of_cons in Hin as [->|Hin]; [done|].
  specialize (IH Hin).
  destruct (0 <=? array_indexOf ps x) eqn:Hk; [lia|].
  apply Z.leb_gt in Hk. lia.
Qed.

Lemma segments_pieces (address : jsstring) :
  Forall (fun p => p <> [] /\ cu_slash ∉ p) (segments address).
Proof.
  unfold segments. apply Forall_forall. intros p Hp.
  apply list_elem_of_In, filter_In in Hp as [Hin Hne].
  split.
  - intros ->. done.
  - pose proof (split_pieces address cu_slash) as Hs.
    rewrite Forall_forall in Hs. apply Hs. by apply list_elem_of_In.
Qed.

(** X10. A watch date that is present always stems from the three segments
    that follow the first [for] segment of the day link; these are not
    empty and hold no slash, and the date is built from them joined by
    hyphens. *)
Theorem watchDate_source (Date_parse : jsstring -> option Z) (row : Element)
    (m : Movie) (d : Date) :
  movieOfRow Date_parse row = Normal m ->
  watchDate m = Some d ->
  exists href pre y mo da rest,
    attr (el_find row sel_day) "href" = Some href
    /\ segments href = pre ++ js "for" :: y :: mo :: da :: rest
    /\ (js "for" ∉ pre)
    /\ Forall (fun p => p <> [] /\ cu_slash ∉ p) [y; mo; da]
    /\ d = {| timeValue := Date_parse (y ++ js "-" ++ mo ++ js "-" ++ da) |}.
Proof.
  rewrite movieOfRow_Normal. intros [= <-] Hw.
  destruct (attr (el_find row sel_day) "href") as [href|] eqn:Hh;
    [|unfold movie_of in Hw; cbn [watchDate] in Hw; by rewrite Hh in Hw].
  destruct (watchDate_by_segments Date_parse row href Hh) as (H1 & H2 & H3).
  pose proof (array_indexOf_bounds (segments href) (js "for")) as Hb.
  destruct (decide (0 <= array_indexOf (segments href) (js "for")))
    as [Hk|Hk].
  2:{ assert (js "for" ∉ segments href) as Hn
        by (intros Hin; by apply array_indexOf_present in Hin).
      rewrite (H1 Hn) in Hw. discriminate Hw. }
  destruct (array_indexOf_cut _ _ Hk) as (pre & post & Hs & Hpre & _).
  destruct post as [|y [|mo [|da rest]]];
    try (rewrite (H2 pre _ Hs Hpre) in Hw by (simpl; lia); discriminate Hw).
  rewrite (H3 pre y mo da rest Hs Hpre) in Hw. injection Hw as <-.
  exists href, pre, y, mo, da, rest.
  split; [done|]. split; [exact Hs|]. split; [exact Hpre|].
  split; [|reflexivity].
  pose proof (segments_pieces href) as Hp. rewrite Hs in Hp.
  apply Forall_app in Hp as [_ Hp].
  inversion Hp as [|?? _ Hp1]; subst.
  inversion Hp1 as [|?? Hy Hp2]; subst.
  inversion Hp2 as [|?? Hmo Hp3]; subst.
  inversion Hp3 as [|?? Hda _]; subst.
  repeat constructor; tauto.
Qed.

Lemma watchDate_source_witness :
  exists href pre y mo da rest,
    attr (el_find Fixture.row_oppenheimer sel_day) "href" = Some href
    /\ segments href = pre ++ js "for" :: y :: mo :: da :: rest
    /\ (js "for" ∉ pre)
    /\ Forall (fun p => p <> [] /\ cu_slash ∉ p) [y; mo; da]
    /\ {| timeValue := Some 1689379200000 |}
       = {| timeValue :=
              Fixture.date_only_parse (y ++ js "-" ++ mo ++ js "-" ++ da) |}.
Proof.
  apply (watchDate_source Fixture.date_only_parse Fixture.row_oppenheimer
           (movie_of Fixture.date_only_parse Fixture.row_oppenheimer)
           {| timeValue := Some 1689379200000 |}).
  - apply movieOfRow_Normal.
  - vm_compute. reflexivity.
Defined.

(** X11. The poster address of a row whose slug ends in a hyphen and a year of
    four digits is built from the slug without them. *)
Theorem poster_without_year (Date_parse : jsstring -> option Z)
    (row : Element) (id t y : jsstring) :
  attr (el_find row sel_film) "data-film-id" = Some id ->
  attr (el_find row sel_film) "data-film-slug" = Some (t ++ cu_hyphen :: y) ->
  id <> [] -> trimmed id ->
  t <> [] -> (forall c, head t = Some c -> isWhiteSpace c = false) ->
  length y = 4%nat -> forallb isDigit y = true ->
  exists m,
    movieOfRow Date_parse row = Normal m
    /\ filmId m = Some id
    /\ posterUrl m
       = Some (poster_prefix ++ id_segments id ++ js "/" ++ id ++ js "-"
               ++ t ++ poster_suffix).
Proof.
  intros Hi Hs Hid Htid Ht Hth Hl Hd.
  exists (movie_of Date_parse row). split; [apply movieOfRow_Normal|].
  unfold movie_of. cbn [filmId posterUrl]. rewrite Hi, Hs.
  assert (trimmed (t ++ cu_hyphen :: y)) as Hts.
  { split.
    - intros c. destruct t as [|a t']; [done|]. apply Hth.
    - intros c Hc. rewrite forallb_forall in Hd.
      apply isWhiteSpace_digit. apply Hd. apply list_elem_of_In.
      rewrite last_app_cons, last_cons in Hc.
      destruct (last y) as [l|] eqn:El.
      + injection Hc as <-. apply last_Some in El as [y' ->]. set_solver.
      + apply last_None in El. subst y. discriminate Hl. }
  destruct id as [|c i]; [done|].
  rewrite (trimmed_trim _ Htid).
  destruct t as [|a t']; [done|]. cbn [app].
  change (a :: t' ++ cu_hyphen :: y) with ((a :: t') ++ cu_hyphen :: y).
  rewrite (trimmed_trim _ Hts).
  rewrite (stripYearFromSlug_digit_year _ _ Hl Hd).
  split; [reflexivity|]. by rewrite join_units_segments.
Qed.

Lemma poster_without_year_witness :
  exists m,
    movieOfRow Fixture.date_only_parse Fixture.row_oppenheimer = Normal m
    /\ filmId m = Some (js "784328")
    /\ posterUrl m
       = Some (poster_prefix ++ id_segments (js "784328") ++ js "/"
               ++ js "784328" ++ js "-" ++ js "oppenheimer" ++ poster_suffix).
Proof.
  apply (poster_without_year Fixture.date_only_parse Fixture.row_oppenheimer
           (js "784328") (js "oppenheimer") (js "2023")).
  - vm_compute. reflexivity.
  - vm_compute. reflexivity.
  - discriminate.
  - split; intros c H; vm_compute in H; injection H as <-; reflexivity.
  - discriminate.
  - intros c H. vm_compute in H. injection H as <-. reflexivity.
  - reflexivity.
  - vm_compute. reflexivity.
Defined.

(** ** Promise.all, read backwards *)

(** When the aggregate fulfils, every element has fulfilled, and the
    array holds their values in the order of the elements. *)
Lemma all_fulfilled_inv {A} (outcomes : list (completion A))
    (order : list nat) (l : list (option A)) :
  PromiseAll.all outcomes order = Some (Normal l) ->
  exists vs, outcomes = map Normal vs /\ l = map Some vs.
Proof.
  unfold PromiseAll.all. intros Hs.
  destruct (all_run outcomes order) as [(Hlen & Hval & Hrem & Hset) _].
  set (st := fold_left _ order _) in *. rewrite Hs in Hset.
  destruct Hset as [-> Hz]. rewrite Hrem in Hz.
  assert (forall i, (i < length outcomes)%nat ->
            exists v, PromiseAll.values st !! i = Some (Some v)
                      /\ outcomes !! i = Some (Normal v)) as Hslot.
  { intros i Hi. rewrite <- Hlen in Hi.
    destruct (lookup_lt_is_Some_2 _ i Hi) as [[v|] Hv].
    - exists v. split; [done|by apply Hval].
    - by apply holes_lookup in Hv. }
  clearbody st. clear Hs Hrem Hz Hval.
  revert outcomes Hlen Hslot.
  induction (PromiseAll.values st) as [|x l IH]; intros outcomes Hlen Hslot.
  - destruct outcomes; [|done]. by exists [].
  - destruct outcomes as [|o outcomes]; [done|].
    destruct (Hslot 0%nat ltac:(simpl; lia)) as (v & Hv & Ho).
    simpl in Hv, Ho. injection Hv as ->. injection Ho as ->.
    destruct (IH outcomes) as (vs & -> & ->).
    + simpl in Hlen. lia.
    + intros i Hi. apply (Hslot (S i)). simpl. lia.
    + by exists (v :: vs).
Qed.

(** ** The comparison page *)

Lemma both_settle (order : list nat) :
  0%nat ∈ order -> 1%nat ∈ order ->
  forall i, (i < 2)%nat -> i ∈ order.
Proof. intros H0 H1 [|[|i]] Hi; [done|done|lia]. Qed.

Lemma all_pair {A} (a b : A) (order : list nat) :
  (forall i, (i < 2)%nat -> i ∈ order) ->
  PromiseAll.all [Normal a; Normal b] order = Some (Normal [Some a; Some b]).
Proof. intros H. exact (all_fulfilled [a; b] order H). Qed.

Section AppFacts.
Context (fetch : jsstring -> completion App.ProxyResponse).
Context (avatarPlaceholder : jsstring).

(** What the [try] block of [fetchData] returns, when it returns data. *)
Lemma app_try_block_data (st : App.State) (order1 order2 : list nat)
    (u1 u2 : App.Profile) :
  App.try_block fetch avatarPlaceholder st order1 order2
  = Some (Normal (u1, u2)) ->
  exists r1 r2 d1 d2,
    fetch (App.proxy_address (App.user1Username st)) = Normal r1
    /\ fetch (App.proxy_address (App.user2Username st)) = Normal r2
    /\ App.ok r1 = true /\ App.ok r2 = true
    /\ App.json r1 = Normal d1 /\ App.json r2 = Normal d2
    /\ u1 = App.with_default_picture avatarPlaceholder d1
    /\ u2 = App.with_default_picture avatarPlaceholder d2.
Proof.
  unfold App.try_block.
  destruct (PromiseAll.all _ order1) as [[responses|e]|] eqn:H1; [|done|done].
  apply all_fulfilled_inv in H1 as (vs & Hf & ->).
  destruct vs as [|r1 [|r2 [|? ?]]]; try done.
  injection Hf as Hf1 Hf2. cbn.
  destruct (App.ok r1) eqn:Hk1; [|done].
  destruct (App.ok r2) eqn:Hk2; [|done]. cbn.
  destruct (PromiseAll.all _ order2) as [[datas|e]|] eqn:H2; [|done|done].
  apply all_fulfilled_inv in H2 as (ds & Hj & ->).
  destruct ds as [|d1 [|d2 [|? ?]]]; try done.
  injection Hj as Hj1 Hj2. cbn. intros [= <- <-].
  exists r1, r2, d1, d2. by repeat split.
Qed.
End AppFacts.

(** X20. A call of [fetchData] whose requests all settle ends in the state
    COMPARE, with no error, exactly when both users are served; in every
    other case it ends in the state ERROR with an error message and the
    user data it had. It never stays in LOADING. *)
Theorem fetchData_outcome (fetch : jsstring -> completion App.ProxyResponse)
    (avatarPlaceholder : jsstring) (st : App.State)
    (order1 order2 : list nat) :
  0%nat ∈ order1 -> 1%nat ∈ order1 -> 0%nat ∈ order2 -> 1%nat ∈ order2 ->
  exists s,
    App.final (App.fetchData fetch avatarPlaceholder st order1 order2) = Some s
    /\ ((App.appState s = App.COMPARE /\ App.error s = None
         /\ App.both_served fetch st)
        \/ (App.appState s = App.ERROR /\ is_Some (App.error s)
            /\ ~ App.both_served fetch st
            /\ App.userData s = App.userData st)).
Proof.
  intros Ha0 Ha1 Hb0 Hb1.
  pose proof (both_settle order1 Ha0 Ha1) as Ho1.
  pose proof (both_settle order2 Hb0 Hb1) as Ho2.
  unfold App.fetchData, App.both_served. cbn [App.final].
  destruct (App.try_block fetch avatarPlaceholder st order1 order2)
    as [[[u1 u2]|e]|] eqn:Ht.
  - eexists. split; [reflexivity|]. left.
    cbn [App.appState App.error App.userData].
    apply app_try_block_data in Ht
      as (r1 & r2 & d1 & d2 & ? & ? & ? & ? & ? & ? & _).
    split; [done|]. split; [done|]. by exists r1, r2, d1, d2.
  - eexists. split; [reflexivity|]. right.
    cbn [App.appState App.error App.userData].
    split; [done|]. split; [by eauto|]. split; [|done].
    intros (r1 & r2 & d1 & d2 & Hf1 & Hf2 & Hk1 & Hk2 & Hj1 & Hj2).
    unfold App.try_block in Ht. rewrite Hf1, Hf2 in Ht.
    rewrite (all_pair r1 r2 order1 Ho1) in Ht. cbn in Ht.
    rewrite Hk1, Hk2 in Ht. cbn in Ht. rewrite Hj1, Hj2 in Ht.
    rewrite (all_pair d1 d2 order2 Ho2) in Ht. by cbn in Ht.
  - exfalso. unfold App.try_block in Ht.
    destruct (fetch (App.proxy_address (App.user1Username st)))
      as [r1|e1] eqn:Hf1.
    2:{ destruct (all_rejected
                    [Throw e1;
                     fetch (App.proxy_address (App.user2Username st))]
                    order1 0%nat e1 eq_refl Ha0) as (e' & k & He & _).
        by rewrite He in Ht. }
    destruct (fetch (App.proxy_address (App.user2Username st)))
      as [r2|e2] eqn:Hf2.
    2:{ destruct (all_rejected [Normal r1; Throw e2] order1 1%nat e2
                    eq_refl Ha1) as (e' & k & He & _).
        by rewrite He in Ht. }
    rewrite (all_pair r1 r2 order1 Ho1) in Ht. cbn in Ht.
    destruct (negb (App.ok r1) || negb (App.ok r2)); [done|].
    destruct (App.json r1) as [d1|e1] eqn:Hj1.
    2:{ destruct (all_rejected [Throw e1; App.json r2] order2 0%nat e1
                    eq_refl Hb0) as (e' & k & He & _).
        by rewrite He in Ht. }
    destruct (App.json r2) as [d2|e2] eqn:Hj2.
    2:{ destruct (all_rejected [Normal d1; Throw e2] order2 1%nat e2
                    eq_refl Hb1) as (e' & k & He & _).
        by rewrite He in Ht. }
    rewrite (all_pair d1 d2 order2 Ho2) in Ht. by cbn in Ht.
Qed.

Lemma fetchData_outcome_witness :
  exists s,
    App.final (App.fetchData App.demo_fetch (js "placeholder.webp")
                 (App.typed (js "alice") (js "bob")) [1; 0]%nat [0; 1]%nat)
    = Some s
    /\ ((App.appState s = App.COMPARE /\ App.error s = None
         /\ App.both_served App.demo_fetch (App.typed (js "alice") (js "bob")))
        \/ (App.appState s = App.ERROR /\ is_Some (App.error s)
            /\ ~ App.both_served App.demo_fetch
                   (App.typed (js "alice") (js "bob"))
            /\ App.userData s
               = App.userData (App.typed (js "alice") (js "bob")))).
Proof.
  apply (fetchData_outcome App.demo_fetch (js "placeholder.webp")
           (App.typed (js "alice") (js "bob")) [1; 0]%nat [0; 1]%nat).
  - apply list_elem_of_In. right. left. reflexivity.
  - apply list_elem_of_In. left. reflexivity.
  - apply list_elem_of_In. left. reflexivity.
  - apply list_elem_of_In. right. left. reflexivity.
Defined.

(** X21. In the state COMPARE both users carry what the proxy answered for
    them, and each has a picture: its own when it has one, the placeholder
    otherwise. *)
Theorem compared_users_have_pictures
    (fetch : jsstring -> completion App.ProxyResponse)
    (avatarPlaceholder : jsstring) (st s : App.State)
    (order1 order2 : list nat) :
  avatarPlaceholder <> [] ->
  App.final (App.fetchData fetch avatarPlaceholder st order1 order2) = Some s ->
  App.appState s = App.COMPARE ->
  exists r1 r2 d1 d2 u1 u2,
    fetch (App.proxy_address (App.user1Username st)) = Normal r1
    /\ fetch (App.proxy_address (App.user2Username st)) = Normal r2
    /\ App.json r1 = Normal d1 /\ App.json r2 = Normal d2
    /\ App.userData s = (Some u1, Some u2)
    /\ Forall2 (fun d u =>
                  App.movies u = App.movies d /\ App.name u = App.name d
                  /\ truthy (App.profilePicUrl u) = true
                  /\ App.profilePicUrl u
                     = (if truthy (App.profilePicUrl d)
                        then App.profilePicUrl d
                        else Some avatarPlaceholder))
               [d1; d2] [u1; u2].
Proof.
  intros Hp. unfold App.fetchData. cbn [App.final].
  destruct (App.try_block fetch avatarPlaceholder st order1 order2)
    as [[[u1 u2]|e]|] eqn:Ht; [|by intros [= <-]|done].
  intros [= <-] _.
  apply app_try_block_data in Ht
    as (r1 & r2 & d1 & d2 & ? & ? & _ & _ & ? & ? & -> & ->).
  exists r1, r2, d1, d2. eexists _, _.
  do 4 (split; [done|]). split; [reflexivity|].
  assert (forall d,
            App.movies (App.with_default_picture avatarPlaceholder d)
            = App.movies d
            /\ App.name (App.with_default_picture avatarPlaceholder d)
               = App.name d
            /\ truthy (App.profilePicUrl
                         (App.with_default_picture avatarPlaceholder d)) = true
            /\ App.profilePicUrl (App.with_default_picture avatarPlaceholder d)
               = (if truthy (App.profilePicUrl d)
                  then App.profilePicUrl d
                  else Some avatarPlaceholder)) as Hd.
  { intros d. unfold App.with_default_picture.
    destruct (truthy (App.profilePicUrl d)) eqn:Hy; cbn; [done|].
    by destruct avatarPlaceholder. }
  repeat constructor; apply Hd.
Qed.

Lemma compared_users_have_pictures_witness :
  exists r1 r2 d1 d2 u1 u2,
    App.demo_fetch (App.proxy_address (js "alice")) = Normal r1
    /\ App.demo_fetch (App.proxy_address (js "bob")) = Normal r2
    /\ App.json r1 = Normal d1 /\ App.json r2 = Normal d2
    /\ (Some {| App.movies := []; App.name := js "Alice";
                App.profilePicUrl := Some (js "placeholder.webp") |},
        Some {| App.movies := []; App.name := js "Bob";
                App.profilePicUrl := Some (js "bob.jpg") |})
       = (Some u1, Some u2)
    /\ Forall2 (fun d u =>
                  App.movies u = App.movies d /\ App.name u = App.name d
                  /\ truthy (App.profilePicUrl u) = true
                  /\ App.profilePicUrl u
                     = (if truthy (App.profilePicUrl d)
                        then App.profilePicUrl d
                        else Some (js "placeholder.webp")))
               [d1; d2] [u1; u2].
Proof.
  apply (compared_users_have_pictures App.demo_fetch (js "placeholder.webp")
           (App.typed (js "alice") (js "bob"))
           {| App.appState := App.COMPARE;
              App.user1Username := js "alice";
              App.user2Username := js "bob";
              App.error := None;
              App.userData :=
                (Some {| App.movies := []; App.name := js "Alice";
                         App.profilePicUrl := Some (js "placeholder.webp") |},
                 Some {| App.movies := []; App.name := js "Bob";
                         App.profilePicUrl := Some (js "bob.jpg") |}) |}
           [1; 0]%nat [0; 1]%nat).
  - discriminate.
  - vm_compute. reflexivity.
  - reflexivity.
Defined.

(** X22. When both responses arrive and one is not [ok], the page ends in
    ERROR with the message for the first user whose response is not
    [ok]: user 1 when both are not, with the status text of that
    response. No body is read. *)
Theorem error_names_failing_user
    (fetch : jsstring -> completion App.ProxyResponse)
    (avatarPlaceholder : jsstring) (st : App.State)
    (order1 order2 : list nat) (r1 r2 : App.ProxyResponse) :
  fetch (App.proxy_address (App.user1Username st)) = Normal r1 ->
  fetch (App.proxy_address (App.user2Username st)) = Normal r2 ->
  0%nat ∈ order1 -> 1%nat ∈ order1 ->
  App.ok r1 = false \/ App.ok r2 = false ->
  exists s,
    App.final (App.fetchData fetch avatarPlaceholder st order1 order2) = Some s
    /\ App.appState s = App.ERROR
    /\ App.error s
       = Some (if App.ok r1
               then js "Error fetching " ++ App.user2Username st ++ js ": "
                    ++ App.statusText r2
               else js "Error fetching " ++ App.user1Username st ++ js ": "
                    ++ App.statusText r1).
Proof.
  intros Hf1 Hf2 H0 H1 Hk.
  unfold App.fetchData, App.try_block. cbn [App.final].
  rewrite Hf1, Hf2, (all_pair r1 r2 order1 (both_settle order1 H0 H1)).
  cbn [App.item lookup list_lookup mbind completion_bind].
  destruct (App.ok r1) eqn:Hk1; destruct (App.ok r2) eqn:Hk2;
    cbn [negb orb]; try (eexists; by repeat split).
  by destruct Hk.
Qed.

Lemma error_names_failing_user_witness :
  exists s,
    App.final (App.fetchData App.demo_fetch (js "placeholder.webp")
                 (App.typed (js "nobody") (js "noone")) [0; 1]%nat [])
    = Some s
    /\ App.appState s = App.ERROR
    /\ App.error s = Some (js "Error fetching nobody: Not Found").
Proof.
  apply (error_names_failing_user App.demo_fetch (js "placeholder.webp")
           (App.typed (js "nobody") (js "noone")) [0; 1]%nat []
           {| App.ok := false; App.statusText := js "Not Found";
              App.json := Throw (js "Unexpected token") |}
           {| App.ok := false; App.statusText := js "Not Found";
              App.json := Throw (js "Unexpected token") |}).
  - vm_compute. reflexivity.
  - vm_compute. reflexivity.
  - apply list_elem_of_In. left. reflexivity.
  - apply list_elem_of_In. right. left. reflexivity.
  - left. reflexivity.
Defined.


(** ** No partial answer *)

(** X19. Whenever the handler returns for an accepted address, in whatever
    order and however many of its requests have settled, its response is
    either the failure with an error text or the response built from the
    first page and every later page it announces, each fetched and
    parsed. *)
Theorem no_partial_answer (load : jsstring -> Document)
    (Date_parse : jsstring -> option Z)
    (fetch : jsstring -> completion HttpResponse)
    (event : Event) (params : gmap string jsstring) (url : jsstring)
    (order : list nat) (response : Response) :
  queryStringParameters event = Some params ->
  params !! "url" = Some url ->
  startsWith url allowed_origin = true ->
  returned (handler load Date_parse fetch event order) = Some response ->
  (exists e, response = failure e)
  \/ exists firstStatus pageCount user data pages,
       first_page load Date_parse fetch url
       = Normal (firstStatus, pageCount, user, data)
       /\ Forall2 (fun address d =>
                     page_chain load Date_parse fetch address = Normal d)
                  (pageUrls url pageCount) pages
       /\ response = success_response firstStatus user
                       (movies data ++ concat (map movies pages)).
Proof.
  intros Hq Hu Hs.
  rewrite (handler_accepted _ _ _ _ _ _ _ Hq Hu Hs). unfold try_block.
  destruct (first_page load Date_parse fetch url)
    as [[[[st n] user] data]|e] eqn:H1; [|intros [= <-]; by eauto].
  destruct (PromiseAll.all _ order) as [[l|e]|] eqn:Ha;
    [|intros [= <-]; by eauto|done].
  apply all_fulfilled_inv in Ha as (pages & Hp & ->).
  rewrite flatMap_movies_full. intros [= <-]. right.
  exists st, n, user, data, pages. split; [reflexivity|].
  split; [by apply map_Normal_Forall2|reflexivity].
Qed.

Lemma no_partial_answer_witness :
  (exists e,
     success_response 200 Fixture.bob
       (map Fixture.movie_titled [js "A"; js "B"; js "C"; js "D"; js "E"; js "F"])
     = failure e)
  \/ exists firstStatus pageCount user data pages,
       first_page Fixture.load3 Fixture.date_only_parse Fixture.net3
         Fixture.base
       = Normal (firstStatus, pageCount, user, data)
       /\ Forall2 (fun address d =>
                     page_chain Fixture.load3 Fixture.date_only_parse
                       Fixture.net3 address = Normal d)
                  (pageUrls Fixture.base pageCount) pages
       /\ success_response 200 Fixture.bob
            (map Fixture.movie_titled
               [js "A"; js "B"; js "C"; js "D"; js "E"; js "F"])
          = success_response firstStatus user
              (movies data ++ concat (map movies pages)).
Proof.
  apply (no_partial_answer Fixture.load3 Fixture.date_only_parse Fixture.net3
           (event_for Fixture.base) {[ "url" := Fixture.base ]} Fixture.base
           [0; 1; 1; 7]%nat).
  - reflexivity.
  - vm_compute. reflexivity.
  - vm_compute. reflexivity.
  - vm_compute. reflexivity.
Defined.

(** ** The name, further *)

Lemma trimStart_elem (s : jsstring) (c : codeunit) :
  c ∈ trimStart s -> c ∈ s.
Proof.
  induction s as [|x r IH]; simpl; [done|].
  destruct (isWhiteSpace x); [|done]. intros H. right. by apply IH.
Qed.

Lemma trim_elem (s : jsstring) (c : codeunit) : c ∈ trim s -> c ∈ s.
Proof.
  unfold trim, trimEnd. rewrite elem_of_reverse. intros H.
  apply trimStart_elem in H. rewrite elem_of_reverse in H.
  by apply trimStart_elem.
Qed.

(** X6. A title without the apostrophe U+2019 gives the whole trimmed title
    without its first code unit: the first code unit is dropped whether
    or not it is a mark. *)
Theorem name_without_apostrophe (load : jsstring -> Document)
    (html : jsstring) :
  cu_rsquo ∉ text (query (load html) "title") ->
  exists u,
    getUserDataFromHtml load html = Normal u
    /\ name u = substring_from (trim (text (query (load html) "title"))) 1.
Proof.
  intros Hn. exists (user_of load html).
  split; [apply getUserDataFromHtml_user_of|].
  unfold user_of. cbn [name].
  rewrite split_no_separator by (intros H; by apply trim_elem in H).
  by rewrite (trimmed_trim _ (trim_trimmed _)).
Qed.

Lemma name_without_apostrophe_witness :
  exists u,
    getUserDataFromHtml
      (fun _ => Fixture.page [] [Fixture.leaf ∅ (js " Not Found ")] [] [])
      (js "<not found>") = Normal u
    /\ name u = substring_from (trim (js " Not Found ")) 1.
Proof.
  apply (name_without_apostrophe
           (fun _ => Fixture.page [] [Fixture.leaf ∅ (js " Not Found ")] [] [])
           (js "<not found>")).
  vm_compute. intros H.
  repeat (apply elem_of_cons in H as [H|H]; [discriminate H|]).
  by apply elem_of_nil in H.
Defined.
